(** * RAG multi-tenant: the React client and the tenant-isolation contract

  A shallow embedding of the client of the multi-tenant document search
  platform (the [ui-react] sources: the [api] service, the [QueryForm],
  [UploadDocument], [QueryResults] and [ErrorMessage] components and the
  [App] component that wires them), followed by a model of the retrieval
  back end that the client talks to.

  Conventions.
  - A JavaScript string is the list of its UTF-16 code units.
  - A React state hook is a record field; an event handler is a function
    from the state the handler closes over to the next state, together
    with what it sends (a request, a callback invocation).
  - An [async] handler is cut at its [await]: the part before the request
    goes out, and the part that runs once the promise has settled.
  - A promise settles to [Resolved v] or [Rejected e]; [throw] inside an
    [async] function is [Rejected]. *)

From stdpp Require Import base list strings gmap.
From Stdlib Require Import NArith ZArith QArith DecimalString DecimalN Lia.

Local Open Scope N_scope.

(* ===================================================================== *)
(** ** JavaScript strings                                                 *)
(* ===================================================================== *)

Module JS.

Definition code_unit := N.
Definition jsstring := list code_unit.

(** *** Literals

    Source literals are written here as Rocq strings, which are UTF-8 byte
    sequences; [utf16] decodes them to the code units the JavaScript
    engine holds. *)

Fixpoint utf8_code_points (bs : list N) (acc : N) (need : nat) : list N :=
  match bs with
  | [] => []
  | b :: bs' =>
      match need with
      | O =>
          if b <? 128 then b :: utf8_code_points bs' 0 O
          else if b <? 224 then utf8_code_points bs' (b - 192) 1%nat
          else if b <? 240 then utf8_code_points bs' (b - 224) 2%nat
          else utf8_code_points bs' (b - 240) 3%nat
      | S O => (acc * 64 + (b - 128)) :: utf8_code_points bs' 0 O
      | S n => utf8_code_points bs' (acc * 64 + (b - 128)) n
      end
  end.

Definition utf16_units (cp : N) : list code_unit :=
  if cp <? 65536 then [cp]
  else let c := cp - 65536 in [55296 + c / 1024; 56320 + c mod 1024].

Definition utf16 (s : string) : jsstring :=
  concat (map utf16_units
            (utf8_code_points
               (map Ascii.N_of_ascii (String.list_ascii_of_string s)) 0 O)).

(** *** Truthiness and [||] on strings: the empty string is falsy. *)

Definition truthy (s : jsstring) : bool :=
  match s with [] => false | _ :: _ => true end.

(** [a || b] where [a] may be [undefined] (a missing property). *)
Definition or_else (a : option jsstring) (b : jsstring) : jsstring :=
  match a with
  | Some s => if truthy s then s else b
  | None => b
  end.

(** *** [String.prototype.trim]

    [trim] strips WhiteSpace and LineTerminator code points from both
    ends.  All of them lie in the basic multilingual plane, so the
    test is a test on one code unit. *)

Definition is_white_space (c : code_unit) : bool :=
  (c =? 9) || (c =? 10) || (c =? 11) || (c =? 12) || (c =? 13)
  || (c =? 32) || (c =? 160) || (c =? 5760)
  || ((8192 <=? c) && (c <=? 8202))
  || (c =? 8232) || (c =? 8233) || (c =? 8239) || (c =? 8287)
  || (c =? 12288) || (c =? 65279).

Fixpoint trimStart (s : jsstring) : jsstring :=
  match s with
  | [] => []
  | c :: s' => if is_white_space c then trimStart s' else s
  end.

Definition trimEnd (s : jsstring) : jsstring := rev (trimStart (rev s)).

Definition trim (s : jsstring) : jsstring := trimEnd (trimStart s).

(** *** [String.prototype.endsWith] *)

Fixpoint units_eqb (s t : jsstring) : bool :=
  match s, t with
  | [], [] => true
  | a :: s', b :: t' => (a =? b) && units_eqb s' t'
  | _, _ => false
  end.

(** [s.endsWith(t)]: the last [t.length] units of [s] are [t];
    false when [s] is shorter than [t]. *)
Definition endsWith (s t : jsstring) : bool :=
  (length t <=? length s)%nat
  && units_eqb (skipn (length s - length t)%nat s) t.

Definition all_white_space (s : jsstring) : bool := forallb is_white_space s.

(** *** Template literals: [`${n}`] for a non-negative integer [n] is its
    decimal representation. *)

Definition number_to_string (n : N) : jsstring :=
  utf16 (NilZero.string_of_uint (N.to_uint n)).

End JS.

Import JS.

(* ===================================================================== *)
(** ** Promises and the [fetch] interface                                 *)
(* ===================================================================== *)

Module Http.

Inductive method := GET | POST.

(** A [File] as the client sees it: a name and a size in bytes.  The
    client never reads the contents; it only hands the object to
    [FormData]. *)
Record file := File { name : jsstring; size : N }.

Inductive body :=
| NoBody
| JsonBody (fields : list (jsstring * jsstring))
    (** [JSON.stringify] of an object literal with string-valued fields *)
| FormBody (parts : list (jsstring * file))
    (** a [FormData] with its appended parts *).

Record request := Request {
  url : jsstring;
  meth : method;
  headers : list (jsstring * jsstring);
  payload : body
}.

(** The values a request carries under a header name, and the headers it
    carries under other names. *)
Definition header_values (name : string) (r : request) : list jsstring :=
  map snd (List.filter (fun h => units_eqb (fst h) (utf16 name)) (headers r)).

Definition other_headers (name : string) (r : request)
  : list (jsstring * jsstring) :=
  List.filter (fun h => negb (units_eqb (fst h) (utf16 name))) (headers r).

(** A JavaScript [Error]: what the client reads of it is [message]. *)
Record error := Error { message : jsstring }.

Inductive promise (A : Type) :=
| Resolved (a : A)
| Rejected (e : error).
Arguments Resolved {A} a.
Arguments Rejected {A} e.

(** A [Response] whose body, read with [response.json()], has type [A]
    when it parses. *)
Record response (A : Type) := Response {
  status : N;
  json : promise A
}.
Arguments Response {A} status json.
Arguments status {A} r.
Arguments json {A} r.

(** [response.ok]: the status is in the range 200-299. *)
Definition ok {A} (r : response A) : bool :=
  (200 <=? status r) && (status r <=? 299).

Definition await {A B} (p : promise A) (k : A -> promise B) : promise B :=
  match p with
  | Resolved a => k a
  | Rejected e => Rejected e
  end.

Definition throw {A} (e : error) : promise A := Rejected e.

Definition try_catch {A} (p : promise A) (handler : error -> promise A)
  : promise A :=
  match p with
  | Resolved a => Resolved a
  | Rejected e => handler e
  end.

End Http.

Import Http.

Notation "x <- 'await' p ;; k" := (await p (fun x => k))
  (at level 100, p at next level, right associativity, only parsing).

(* ===================================================================== *)
(** ** Response schemas                                                   *)
(* ===================================================================== *)

(** [POST /query] answers
    [{tenant_id, answer, sources: [{doc_id, chunk_id, score, excerpt}],
      no_answer}].  The field types are those of the README's example
    response: [chunk_id] is an integer, [score] a string such as
    ["0.89"] and [no_answer] a boolean.  [sources] may be missing, which
    the client tests. *)
Record source := Source {
  doc_id : jsstring;
  chunk_id : Z;
  score : jsstring;
  excerpt : jsstring
}.

Record query_result := QueryResult {
  tenant_id : jsstring;
  answer : jsstring;
  sources : option (list source);
  no_answer : bool
}.

(** [GET /health] answers [{status}]. *)
Record health := Health { health_status : jsstring }.

(* ===================================================================== *)
(** ** services/api.js                                                    *)
(* ===================================================================== *)

Module Api.

Section WithEnv.

(** [import.meta.env.VITE_API_URL], [None] when the variable is unset. *)
Variable VITE_API_URL : option jsstring.

Definition API_BASE_URL : jsstring :=
  match VITE_API_URL with
  | Some u => if truthy u then u else utf16 "http://localhost:8000"
  | None => utf16 "http://localhost:8000"
  end.

(** The argument of [fetch] in [queryDocuments]. *)
Definition query_request (question apiKey : jsstring) : request :=
  {| url := API_BASE_URL ++ utf16 "/query";
     meth := POST;
     headers := [ (utf16 "Content-Type", utf16 "application/json");
                  (utf16 "X-API-KEY", apiKey) ];
     payload := JsonBody [ (utf16 "question", question) ] |}.

Definition queryDocuments
    (fetch : request -> promise (response query_result))
    (question apiKey : jsstring) : promise query_result :=
  try_catch
    (response <- await fetch (query_request question apiKey) ;;
     if negb (ok response) then
       if status response =? 401 then
         throw (Error (utf16 "Clé API invalide ou manquante"))
       else
         throw (Error (utf16 "Erreur serveur: "
                         ++ number_to_string (status response)))
     else
       json response)
    (fun error => (* console.error('Erreur API:', error) *) throw error).

(** The argument of [fetch] in [checkHealth]: a bare URL, hence a GET
    with neither headers nor body. *)
Definition health_request : request :=
  {| url := API_BASE_URL ++ utf16 "/health";
     meth := GET;
     headers := [];
     payload := NoBody |}.

Definition checkHealth
    (fetch : request -> promise (response health)) : promise health :=
  try_catch
    (response <- await fetch health_request ;;
     json response)
    (fun error => (* console.error('Backend non disponible:', error) *)
       throw error).

End WithEnv.

End Api.

(* ===================================================================== *)
(** ** components/QueryForm.jsx                                           *)
(* ===================================================================== *)

Module QueryForm.

(** The two [useState] hooks of the form. *)
Record state := State {
  question : jsstring;
  apiKey : jsstring
}.

Definition initial : state :=
  {| question := []; apiKey := utf16 "tenantA_key" |}.

Definition setQuestion (v : jsstring) (s : state) : state :=
  {| question := v; apiKey := apiKey s |}.

Definition setApiKey (v : jsstring) (s : state) : state :=
  {| question := question s; apiKey := v |}.

(** [handleSubmit]: the value is the invocation of the [onSubmit] prop,
    [Some (question, apiKey)], or [None] when the handler returns without
    calling it. *)
Definition handleSubmit (s : state) : option (jsstring * jsstring) :=
  (* e.preventDefault() *)
  if truthy (trim (question s)) then
    Some (question s, apiKey s)
  else
    None.

(** The [disabled] attribute of the submit button. *)
Definition submit_disabled (loading : bool) (s : state) : bool :=
  loading || negb (truthy (trim (question s))).

End QueryForm.

(* ===================================================================== *)
(** ** components/UploadDocument.jsx                                      *)
(* ===================================================================== *)

Module UploadDocument.

(** What [setSuccess] stores after an upload. *)
Record success_info := SuccessInfo {
  success_message : jsstring;
  success_chunks : Z;
  success_size : jsstring
}.

Record state := State {
  file : option Http.file;
  uploading : bool;
  success : option success_info;
  error : option jsstring;
  apiKey : jsstring
}.

Definition initial : state :=
  {| file := None; uploading := false; success := None; error := None;
     apiKey := utf16 "tenantA_key" |}.

Definition setFile (v : option Http.file) (s : state) : state :=
  {| file := v; uploading := uploading s; success := success s;
     error := error s; apiKey := apiKey s |}.

Definition setUploading (v : bool) (s : state) : state :=
  {| file := file s; uploading := v; success := success s;
     error := error s; apiKey := apiKey s |}.

Definition setSuccess (v : option success_info) (s : state) : state :=
  {| file := file s; uploading := uploading s; success := v;
     error := error s; apiKey := apiKey s |}.

Definition setError (v : option jsstring) (s : state) : state :=
  {| file := file s; uploading := uploading s; success := success s;
     error := v; apiKey := apiKey s |}.

(** [handleFileChange(e)], with [files] the list [e.target.files]. *)
Definition handleFileChange (files : list Http.file) (s : state) : state :=
  match head files with
  | Some selectedFile =>
      if negb (endsWith (name selectedFile) (utf16 ".txt")) then
        setFile None (setError (Some (utf16 "Seuls les fichiers .txt sont acceptés")) s)
      else if size selectedFile =? 0 then
        setFile None (setError (Some (utf16 "Le fichier est vide")) s)
      else if 5 * 1024 * 1024 <? size selectedFile then
        setFile None
          (setError (Some (utf16 "Le fichier est trop volumineux (max 5MB)")) s)
      else
        setSuccess None (setError None (setFile (Some selectedFile) s))
  | None => s
  end.

(** [handleDrop(e)], with [files] the list [e.dataTransfer.files]: the
    first dropped file is wrapped in a synthetic change event. *)
Definition handleDrop (files : list Http.file) (s : state) : state :=
  (* e.preventDefault(); e.stopPropagation() *)
  match head files with
  | Some droppedFile => handleFileChange [droppedFile] s
  | None => s
  end.

(** The argument of [fetch] in [handleUpload]. *)
Definition upload_request (f : Http.file) (key : jsstring) : request :=
  {| url := utf16 "http://localhost:8000/upload";
     meth := POST;
     headers := [ (utf16 "X-API-KEY", key) ];
     payload := FormBody [ (utf16 "file", f) ] |}.

(** [handleUpload] up to its first [await]: the state after the
    synchronous part, and the request passed to [fetch], if any.  What
    runs after the [await] sends nothing more; it only stores the outcome
    with [setSuccess], [setFile], [setError] and [setUploading]. *)
Definition handleUpload (s : state) : state * option request :=
  match file s with
  | None =>
      (setError (Some (utf16 "Veuillez sélectionner un fichier")) s, None)
  | Some f =>
      (setSuccess None (setError None (setUploading true s)),
       Some (upload_request f (apiKey s)))
  end.

(** The upload button is rendered only under [file && ...]. *)
Definition upload_button_shown (s : state) : bool :=
  match file s with Some _ => true | None => false end.

End UploadDocument.

(* ===================================================================== *)
(** ** React elements                                                     *)
(* ===================================================================== *)

Module React.

(** The element tree a component returns.  A child is a string, a number
    or an element; an array child (the value of [sources.map]) is laid
    out in place, in order.  Keys and event-handler props are left out. *)
#[warnings="-register-all"]
Inductive node :=
| Text (s : jsstring)
| Number (n : Z)
| Elem (tag : string) (className : string) (children : list node).

(** The [className] of an element written without one. *)
Definition no_class : string := EmptyString.

(** The elements of class [c] in a tree, outermost first, in document
    order. *)
Fixpoint by_class (c : string) (n : node) : list node :=
  match n with
  | Elem tag cls kids =>
      (if String.eqb cls c then [n] else [])
        ++ List.flat_map (by_class c) kids
  | _ => []
  end.

(** The string and number leaves of a tree, in document order: what the
    browser shows. *)
Fixpoint leaves (n : node) : list node :=
  match n with
  | Elem _ _ kids => List.flat_map leaves kids
  | leaf => [leaf]
  end.

(** A component returns an element or [null]. *)
Definition rendered := option node.

Definition by_class_in (c : string) (r : rendered) : list node :=
  match r with Some n => by_class c n | None => [] end.

End React.

Import React.

(* ===================================================================== *)
(** ** components/QueryResults.jsx                                        *)
(* ===================================================================== *)

Module QueryResults.

(** The body of the [sources.map] callback. *)
Definition source_item (source : source) : node :=
  Elem "div" "source-item"
    [ Elem "div" "source-header"
        [ Elem "span" "source-doc"
            [ Text (utf16 "📄 ");
              Elem "strong" no_class [ Text (doc_id source) ] ];
          Elem "span" "source-meta"
            [ Text (utf16 "Chunk ");
              Number (chunk_id source);
              Text (utf16 " • Score: ");
              Elem "code" no_class [ Text (score source) ] ] ];
      Elem "div" "source-excerpt" [ Text (excerpt source) ] ].

(** [!sources || sources.length === 0] *)
Definition no_sources (sources : option (list source)) : bool :=
  match sources with
  | None => true
  | Some l => (length l =? 0)%nat
  end.

Definition QueryResults (result : option query_result) : rendered :=
  match result with
  | None => None
  | Some result =>
      let tenant_id := tenant_id result in
      let answer := answer result in
      let sources := sources result in
      let no_answer := no_answer result in
      Some
        (Elem "div" "query-results"
           [ Elem "div" "tenant-badge"
               [ Elem "strong" no_class [ Text (utf16 "📍 Tenant:") ];
                 Text (utf16 " ");
                 Text tenant_id ];
             Elem "div" "results-section"
               [ Elem "h2" no_class [ Text (utf16 "💬 Réponse") ];
                 if no_answer then
                   Elem "div" "no-answer-message"
                     [ Text (utf16 "ℹ️ Aucune réponse possible pour ce client (pas de passage pertinent dans ses documents).") ]
                 else
                   Elem "div" "answer-box"
                     [ Elem "pre" no_class [ Text answer ] ] ];
             Elem "div" "results-section"
               [ Elem "h2" no_class [ Text (utf16 "📚 Sources") ];
                 if no_sources sources then
                   Elem "p" "no-sources"
                     [ Text (utf16 "Aucune source trouvée") ]
                 else
                   Elem "div" "sources-list"
                     (map source_item (default [] sources)) ] ])
  end.

End QueryResults.

(* ===================================================================== *)
(** ** components/ErrorMessage.jsx                                        *)
(* ===================================================================== *)

Module ErrorMessage.

(** [!error]: the prop is [null] or the empty string. *)
Definition falsy (error : option jsstring) : bool :=
  match error with
  | None => true
  | Some m => negb (truthy m)
  end.

Definition ErrorMessage (error : option jsstring) : rendered :=
  if falsy error then None
  else
    Some
      (Elem "div" "error-message"
         [ Elem "div" "error-content"
             [ Elem "span" "error-icon" [ Text (utf16 "⚠️") ];
               Elem "div" "error-text"
                 [ Elem "strong" no_class [ Text (utf16 "Erreur:") ];
                   Text (utf16 " ");
                   Text (default [] error) ];
               Elem "button" "error-dismiss" [ Text (utf16 "✕") ] ] ]).

End ErrorMessage.

(* ===================================================================== *)
(** ** App.jsx                                                            *)
(* ===================================================================== *)

Module App.

Inductive tab := Search | Upload.

Record state := State {
  result : option query_result;
  error : option jsstring;
  loading : bool;
  backendStatus : option health;
  activeTab : tab
}.

Definition initial : state :=
  {| result := None; error := None; loading := false;
     backendStatus := None; activeTab := Search |}.

Definition setResult (v : option query_result) (s : state) : state :=
  {| result := v; error := error s; loading := loading s;
     backendStatus := backendStatus s; activeTab := activeTab s |}.

Definition setError (v : option jsstring) (s : state) : state :=
  {| result := result s; error := v; loading := loading s;
     backendStatus := backendStatus s; activeTab := activeTab s |}.

Definition setLoading (v : bool) (s : state) : state :=
  {| result := result s; error := error s; loading := v;
     backendStatus := backendStatus s; activeTab := activeTab s |}.

Definition setBackendStatus (v : option health) (s : state) : state :=
  {| result := result s; error := error s; loading := loading s;
     backendStatus := v; activeTab := activeTab s |}.

Definition setActiveTab (v : tab) (s : state) : state :=
  {| result := result s; error := error s; loading := loading s;
     backendStatus := backendStatus s; activeTab := v |}.

(** The callbacks chained on [checkHealth()] in the mount effect:
    [.then((status) => setBackendStatus(status))
     .catch(() => setBackendStatus({ status: 'error' }))]. *)
Definition health_settled (outcome : promise health) (s : state) : state :=
  match outcome with
  | Resolved status => setBackendStatus (Some status) s
  | Rejected _ => setBackendStatus (Some (Health (utf16 "error"))) s
  end.

(** [handleQuery] before its [await]. *)
Definition handleQuery_begin (s : state) : state :=
  setResult None (setError None (setLoading true s)).

(** [handleQuery] from the [await] on: the [try] continuation, the
    [catch] and the [finally]. *)
Definition handleQuery_settled (outcome : promise query_result) (s : state)
  : state :=
  setLoading false
    (match outcome with
     | Resolved data => setResult (Some data) s
     | Rejected err =>
         setError
           (Some (if truthy (message err) then message err
                  else utf16 "Une erreur est survenue")) s
     end).

(** The badge under [{/* Backend Status Badge */}]. *)
Definition status_is (v : string) (s : state) : bool :=
  match backendStatus s with
  | Some h => units_eqb (health_status h) (utf16 v)
  | None => false
  end.

Definition backend_status_badge (s : state) : node :=
  Elem "div" "backend-status"
    (if status_is "ok" s then
       [ Elem "div" "status-indicator" [];
         Elem "span" "status-ok" [ Text (utf16 "Système opérationnel") ] ]
     else if status_is "error" s then
       [ Elem "div" "status-indicator" [];
         Elem "span" "status-error" [ Text (utf16 "Service indisponible") ] ]
     else
       [ Elem "div" "status-indicator" [];
         Elem "span" "status-loading"
           [ Text (utf16 "Connexion en cours...") ] ]).

(** What the search tab mounts under the form. *)
Definition error_view (s : state) : rendered :=
  ErrorMessage.ErrorMessage (error s).

Definition results_view (s : state) : rendered :=
  QueryResults.QueryResults (result s).

Section WithEnv.

Variable VITE_API_URL : option jsstring.

(** One whole call of [handleQuery] against a server [fetch]. *)
Definition handleQuery
    (fetch : request -> promise (response query_result))
    (question apiKey : jsstring) (s : state) : state :=
  handleQuery_settled (Api.queryDocuments VITE_API_URL fetch question apiKey)
    (handleQuery_begin s).

(** *** The running application

    The component state together with the calls that are waiting on the
    network.  Events are what the user and the network can do to the
    mounted [App]; each step returns the requests it sends.  This is
    [App] by itself: the child that the upload tab mounts, and the tab
    that an element needs to be on screen, are added in [Page] below. *)

Record config := Config {
  app : state;
  queries : list (jsstring * jsstring);  (** [handleQuery] calls in flight *)
  health_pending : bool                  (** the mount effect's call in flight *)
}.

Inductive event :=
| SubmitForm (form : QueryForm.state)
    (** the search form is submitted while it holds [form] *)
| QuerySettled (i : nat) (reply : promise (response query_result))
    (** the [fetch] of the [i]-th call in flight settles *)
| HealthSettled (reply : promise (response health))
| DismissError
| SelectTab (t : tab).

(** Mounting [App]: the effect with the empty dependency list runs once. *)
Definition mount : config * list request :=
  ({| app := initial; queries := []; health_pending := true |},
   [ Api.health_request VITE_API_URL ]).

Definition step (c : config) (e : event) : config * list request :=
  match e with
  | SubmitForm form =>
      if QueryForm.submit_disabled (loading (app c)) form then (c, [])
      else
        match QueryForm.handleSubmit form with
        | Some (question, apiKey) =>
            ({| app := handleQuery_begin (app c);
                queries := queries c ++ [ (question, apiKey) ];
                health_pending := health_pending c |},
             [ Api.query_request VITE_API_URL question apiKey ])
        | None => (c, [])
        end
  | QuerySettled i reply =>
      match queries c !! i with
      | Some (question, apiKey) =>
          ({| app :=
                handleQuery_settled
                  (Api.queryDocuments VITE_API_URL (fun _ => reply)
                     question apiKey)
                  (app c);
              queries := delete i (queries c);
              health_pending := health_pending c |},
           [])
      | None => (c, [])
      end
  | HealthSettled reply =>
      if health_pending c then
        ({| app :=
              health_settled
                (Api.checkHealth VITE_API_URL (fun _ => reply)) (app c);
            queries := queries c;
            health_pending := false |},
         [])
      else (c, [])
  | DismissError =>
      ({| app := setError None (app c); queries := queries c;
          health_pending := health_pending c |}, [])
  | SelectTab t =>
      ({| app := setActiveTab t (app c); queries := queries c;
          health_pending := health_pending c |}, [])
  end.

(** A run: the configuration reached and every request sent, oldest
    first. *)
Fixpoint run_from (c : config) (sent : list request) (evs : list event)
  : config * list request :=
  match evs with
  | [] => (c, sent)
  | e :: evs' =>
      let '(c', out) := step c e in
      run_from c' (sent ++ out) evs'
  end.

Definition run (evs : list event) : config * list request :=
  let '(c, sent) := mount in run_from c sent evs.


End WithEnv.

End App.

(* ===================================================================== *)
(** ** components/UploadDocument.jsx: the rest of the component           *)
(* ===================================================================== *)

Module Upload.

(** [getTenantName(key)] *)
Definition getTenantName (key : jsstring) : jsstring :=
  if units_eqb key (utf16 "tenantA_key") then
    utf16 "Tenant A - Assureur Principal"
  else
    utf16 "Tenant B - Assureur Secondaire".

(** The directory named under the tenant selector:
    [apiKey === 'tenantA_key' ? 'data/tenantA/' : 'data/tenantB/']. *)
Definition storage_path (s : UploadDocument.state) : jsstring :=
  if units_eqb (UploadDocument.apiKey s) (utf16 "tenantA_key") then
    utf16 "data/tenantA/"
  else
    utf16 "data/tenantB/".

Definition setApiKey (v : jsstring) (s : UploadDocument.state)
  : UploadDocument.state :=
  {| UploadDocument.file := UploadDocument.file s;
     UploadDocument.uploading := UploadDocument.uploading s;
     UploadDocument.success := UploadDocument.success s;
     UploadDocument.error := UploadDocument.error s;
     UploadDocument.apiKey := v |}.

(** The [onChange] of the tenant selector, with [v] for [e.target.value]. *)
Definition handleTenantChange (v : jsstring) (s : UploadDocument.state)
  : UploadDocument.state :=
  UploadDocument.setError None
    (UploadDocument.setSuccess None (setApiKey v s)).

(** The [onClick] of the remove button; clearing the value of the file
    input touches the DOM only. *)
Definition handleRemove (s : UploadDocument.state) : UploadDocument.state :=
  UploadDocument.setFile None s.

(** [(bytes / 1024).toFixed(2)] for a size in bytes.  The quotient is a
    double without rounding for every integer below 2^53, and [toFixed]
    takes the integer [n] closest to 100 times the quotient, the larger
    one in a tie; its digits are padded to three and the point is set
    before the last two. *)
Definition toFixed2_kib (bytes : N) : jsstring :=
  let n := (100 * bytes + 512) / 1024 in
  let m := number_to_string n in
  let m := repeat 48 (3 - length m)%nat ++ m in
  firstn (length m - 2)%nat m ++ utf16 "." ++ skipn (length m - 2)%nat m.

(** What the client reads of a body of [POST /upload]: [detail] of an
    error body, where it may be missing, and [filename], [chunks_count]
    and [file_size_bytes] of the body of a success. *)
Record upload_body := UploadBody {
  detail : option jsstring;
  filename : jsstring;
  chunks_count : Z;
  file_size_bytes : N
}.

(** The [try] block of [handleUpload] from its first [await] on, as the
    promise of the data that [setSuccess] receives. *)
Definition upload_outcome (reply : promise (response upload_body))
  : promise upload_body :=
  response <- await reply ;;
  if negb (ok response) then
    errorData <- await json response ;;
    throw (Error (or_else (detail errorData) (utf16 "Erreur lors de l'upload")))
  else
    json response.

(** [handleUpload] from its first [await] on: the rest of the [try]
    block, the [catch] and the [finally]. *)
Definition handleUpload_settled (reply : promise (response upload_body))
    (s : UploadDocument.state) : UploadDocument.state :=
  UploadDocument.setUploading false
    (match upload_outcome reply with
     | Resolved data =>
         UploadDocument.setFile None
           (UploadDocument.setSuccess
              (Some
                 {| UploadDocument.success_message :=
                      utf16 "Document " ++ [ 34 ] ++ filename data ++ [ 34 ]
                        ++ utf16 " téléversé avec succès !";
                    UploadDocument.success_chunks := chunks_count data;
                    UploadDocument.success_size :=
                      toFixed2_kib (file_size_bytes data) |})
              s)
     | Rejected err =>
         UploadDocument.setError
           (Some (if truthy (message err) then message err
                  else utf16 "Une erreur est survenue lors de l'upload"))
           s
     end).

(** *** The mounted component

    The state of the component together with the uploads waiting on the
    network.  An event is
    taken only where the element that raises it is rendered and enabled:
    the file input while no file is selected, the remove button while one
    is, the upload button while a file is selected and no upload runs,
    the tenant selector while no upload runs. *)

Record config := Config {
  ui : UploadDocument.state;
  uploads : list request  (** the requests of the calls in flight *)
}.

Inductive event :=
| PickFiles (files : list Http.file)
| DropFiles (files : list Http.file)
| RemoveFile
| ChangeTenant (key : jsstring)
| ClickUpload
| UploadSettled (i : nat) (reply : promise (response upload_body)).

Definition mount : config :=
  {| ui := UploadDocument.initial; uploads := [] |}.

Definition step (c : config) (e : event) : config * list request :=
  match e with
  | PickFiles files =>
      if UploadDocument.upload_button_shown (ui c) then (c, [])
      else
        ({| ui := UploadDocument.handleFileChange files (ui c);
            uploads := uploads c |}, [])
  | DropFiles files =>
      ({| ui := UploadDocument.handleDrop files (ui c);
          uploads := uploads c |}, [])
  | RemoveFile =>
      if UploadDocument.upload_button_shown (ui c) then
        ({| ui := handleRemove (ui c); uploads := uploads c |}, [])
      else (c, [])
  | ChangeTenant key =>
      if UploadDocument.uploading (ui c) then (c, [])
      else ({| ui := handleTenantChange key (ui c); uploads := uploads c |}, [])
  | ClickUpload =>
      if UploadDocument.upload_button_shown (ui c)
         && negb (UploadDocument.uploading (ui c))
      then
        let '(s', sent) := UploadDocument.handleUpload (ui c) in
        let out := match sent with Some r => [ r ] | None => [] end in
        ({| ui := s'; uploads := uploads c ++ out |}, out)
      else (c, [])
  | UploadSettled i reply =>
      match uploads c !! i with
      | Some _ =>
          ({| ui := handleUpload_settled reply (ui c);
              uploads := delete i (uploads c) |}, [])
      | None => (c, [])
      end
  end.

Fixpoint run_from (c : config) (sent : list request) (evs : list event)
  : config * list request :=
  match evs with
  | [] => (c, sent)
  | e :: evs' =>
      let '(c', out) := step c e in
      run_from c' (sent ++ out) evs'
  end.

Definition run (evs : list event) : config * list request :=
  run_from mount [] evs.

End Upload.

(* ===================================================================== *)
(** ** App.jsx: the application with the tab that is open                 *)
(* ===================================================================== *)

Module Page.

Section WithEnv.

Variable VITE_API_URL : option jsstring.

(** [App] together with the child that [activeTab === 'search' ? ... : ...]
    mounts on the upload tab.  [UploadDocument] exists only while that tab
    is open: leaving the tab unmounts it and its state is lost, opening
    the tab again mounts a new one in its initial state.  A request it
    has sent stays sent; the reply to an upload of an unmounted component
    reaches no state. *)
Record config := Config {
  app : App.config;
  upload : option Upload.config
}.

Inductive event :=
| OfApp (e : App.event)
| OfUpload (e : Upload.event).

(** Mounting [App] opens the search tab: no [UploadDocument] yet. *)
Definition mount : config * list request :=
  let '(a, sent) := App.mount VITE_API_URL in
  ({| app := a; upload := None |}, sent).

Definition on_search (c : config) : bool :=
  match App.activeTab (App.app (app c)) with
  | App.Search => true
  | App.Upload => false
  end.

(** The search form and the dismiss button of the error banner are
    rendered on the search tab only; the tab buttons are always there,
    and the network answers whatever tab is open. *)
Definition takes (c : config) (e : App.event) : bool :=
  match e with
  | App.SubmitForm _ | App.DismissError => on_search c
  | App.QuerySettled _ _ | App.HealthSettled _ | App.SelectTab _ => true
  end.

(** The child after [setActiveTab(t)]: selecting the tab that is open
    renders the same tree again and keeps the child. *)
Definition remount (t : App.tab) (u : option Upload.config)
  : option Upload.config :=
  match t with
  | App.Search => None
  | App.Upload => Some (default Upload.mount u)
  end.

Definition step (c : config) (e : event) : config * list request :=
  match e with
  | OfApp e' =>
      if takes c e' then
        let '(a, out) := App.step VITE_API_URL (app c) e' in
        ({| app := a;
            upload := match e' with
                      | App.SelectTab t => remount t (upload c)
                      | _ => upload c
                      end |}, out)
      else (c, [])
  | OfUpload e' =>
      match upload c with
      | Some u =>
          let '(u', out) := Upload.step u e' in
          ({| app := app c; upload := Some u' |}, out)
      | None => (c, [])
      end
  end.

(** A run: the configuration reached and every request sent, oldest
    first. *)
Fixpoint run_from (c : config) (sent : list request) (evs : list event)
  : config * list request :=
  match evs with
  | [] => (c, sent)
  | e :: evs' =>
      let '(c', out) := step c e in
      run_from c' (sent ++ out) evs'
  end.

Definition run (evs : list event) : config * list request :=
  let '(c, sent) := mount in run_from c sent evs.

End WithEnv.

(** The events of a run that are addressed to [App] itself. *)
Definition app_events (evs : list event) : list App.event :=
  omap (fun e => match e with OfApp e' => Some e' | OfUpload _ => None end) evs.

End Page.

(* ===================================================================== *)
(** ** The retrieval back end                                             *)
(* ===================================================================== *)

Module Backend.

Definition tenant := jsstring.
Definition credential := jsstring.
Definition vector := list Q.

(** Modelled from the spec: the Chunk of the data model (section 3); the
    back end's own chunk type is not among the client sources.  A chunk
    identifier is the pair of [document] and [seq]; the span ends at
    [offset + length span]. *)
Record chunk := Chunk {
  owner : tenant;
  document : jsstring;
  seq : nat;
  offset : nat;
  span : jsstring;
  dense : option vector
}.

(** Modelled from the spec: the pair of index snapshots a tenant owns
    (section 3), missing from the sources.  Each is the immutable list of
    the chunks it indexes. *)
Record snapshots := Snapshots {
  lexical_index : list chunk;
  semantic_index : list chunk
}.

Definition empty_snapshots : snapshots :=
  {| lexical_index := []; semantic_index := [] |}.

(** Modelled from the spec: the configuration of the engine, missing from
    the sources: the Tenant Registry's table (4.1), the Chunker's window
    and overlap (4.2), the ingestion bounds (4.7), the similarity
    functions of the two indexes (4.3, 4.4), the thresholds and the
    number of results of the Retrieval Engine (4.5).  Similarities are
    taken as rationals: the engine only compares them. *)
Record engine := Engine {
  registry : gmap credential tenant;
  window : nat;
  overlap : nat;
  max_size : nat;
  accepted_format : jsstring -> jsstring -> bool;
  cosine : vector -> vector -> Q;
  lexical_score : list chunk -> jsstring -> chunk -> Q;
  T_sem : Q;
  T_min : Q;
  top_k : nat
}.

Inductive failure :=
| AuthenticationError
| ValidationError
| ProviderUnavailable.

Inductive mode := semantic | lexical | none.

(** Modelled from the spec: [resolve] of the Tenant Registry (4.1), whose
    code is missing from the sources.  The credential is the value of the
    dedicated header, [None] when the header is absent. *)
Definition resolve (eng : engine) (cred : option credential)
  : tenant + failure :=
  match cred with
  | None => inr AuthenticationError
  | Some c =>
      match registry eng !! c with
      | Some t => inl t
      | None => inr AuthenticationError
      end
  end.

(** Modelled from the spec: [chunk] of the Chunker (4.2), missing from
    the sources.  Chunk [i] starts at [i * (W - O)] and ends at
    [min (start + W) (length text)]; the chunk that reaches the end of
    the text is the last one. *)
Fixpoint chunk_from (fuel : nat) (W O : nat) (text : jsstring) (i : nat)
  : list (nat * jsstring) :=
  match fuel with
  | O => []
  | S fuel' =>
      let start := (i * (W - O))%nat in
      let stop := Nat.min (start + W) (length text) in
      let piece := (start, firstn (stop - start) (skipn start text)) in
      if (length text <=? stop)%nat then [ piece ]
      else piece :: chunk_from fuel' W O text (S i)
  end.

Definition chunk_text (eng : engine) (text : jsstring)
  : list (nat * jsstring) + failure :=
  match text with
  | [] => inr ValidationError
  | _ => inl (chunk_from (length text) (window eng) (overlap eng) text 0)
  end.

(** Modelled from the spec: the ranking rule of the indexes (4.3, 4.4),
    missing from the sources: by similarity, highest first, ties broken
    by the lowest chunk identifier. *)
Fixpoint units_compare (s t : jsstring) : comparison :=
  match s, t with
  | [], [] => Eq
  | [], _ :: _ => Lt
  | _ :: _, [] => Gt
  | a :: s', b :: t' =>
      match (a ?= b)%N with
      | Eq => units_compare s' t'
      | c => c
      end
  end.

Definition chunk_id_compare (a b : chunk) : comparison :=
  match units_compare (document a) (document b) with
  | Eq => (seq a ?= seq b)%nat
  | c => c
  end.

Definition scored := (chunk * Q)%type.

(** [ranks_before a b]: [a] is to be listed before [b]. *)
Definition ranks_before (a b : scored) : bool :=
  match (snd a ?= snd b)%Q with
  | Gt => true
  | Lt => false
  | Eq => match chunk_id_compare (fst a) (fst b) with Gt => false | _ => true end
  end.

Fixpoint insert_ranked (x : scored) (l : list scored) : list scored :=
  match l with
  | [] => [ x ]
  | y :: l' => if ranks_before x y then x :: l else y :: insert_ranked x l'
  end.

Definition rank (l : list scored) : list scored :=
  foldr insert_ranked [] l.

(** Modelled from the spec: [query] of the Lexical Index (4.3), missing
    from the sources.  An index without chunks gives the empty ranking. *)
Definition lexical_query (eng : engine) (index : list chunk)
    (question : jsstring) : list scored :=
  firstn (top_k eng)
    (rank (map (fun c => (c, lexical_score eng index question c)) index)).

(** Modelled from the spec: [query] of the Semantic Index (4.4), missing
    from the sources.  [embed] is the external embedding provider, [None]
    when it is unreachable or its output is malformed. *)
Definition semantic_query (eng : engine) (embed : jsstring -> option vector)
    (index : list chunk) (question : jsstring)
  : list scored + failure :=
  match embed question with
  | None => inr ProviderUnavailable
  | Some q =>
      inl (firstn (top_k eng)
             (rank (omap (fun c =>
                            match dense c with
                            | Some v => Some (c, cosine eng q v)
                            | None => None
                            end) index)))
  end.

Definition above (threshold : Q) (r : scored) : bool :=
  match (snd r ?= threshold)%Q with Gt => true | _ => false end.

Definition below (threshold : Q) (r : scored) : bool :=
  match (snd r ?= threshold)%Q with Lt => true | _ => false end.

(** Modelled from the spec: [retrieve] of the Retrieval Engine (4.5),
    missing from the sources, in its three numbered steps. *)
Definition retrieve (eng : engine) (embed : jsstring -> option vector)
    (snap : snapshots) (question : jsstring) : list scored * mode :=
  let chosen :=
    match semantic_query eng embed (semantic_index snap) question with
    | inl results =>
        if existsb (above (T_sem eng)) results then (results, semantic)
        else (lexical_query eng (lexical_index snap) question, lexical)
    | inr _ => (lexical_query eng (lexical_index snap) question, lexical)
    end in
  match fst chosen with
  | [] => ([], none)
  | top :: _ => if below (T_min eng) top then ([], none) else chosen
  end.

(** Modelled from the spec: [synthesize] of the Answer Synthesizer (4.6),
    missing from the sources.  [generate] is the language model called on
    the question and the retrieved context. *)
Inductive generation :=
| Generated (text : jsstring)
| Declined
| GenerationFailed.

Definition synthesize (generate : jsstring -> list chunk -> generation)
    (question : jsstring) (rankedChunks : list scored) : jsstring * bool :=
  match rankedChunks with
  | [] => ([], true)
  | top :: _ =>
      match generate question (map fst rankedChunks) with
      | Generated text => if truthy text then (text, false) else ([], true)
      | Declined => ([], true)
      | GenerationFailed => (span (fst top), false)
      end
  end.

(** Modelled from the spec: the answer to [POST /query] (section 6) and
    the read path of section 2, missing from the sources.  A source is
    kept with the chunk it cites, from which its [doc_id], [chunk_id] and
    [excerpt] are read. *)
Record reply := Reply {
  reply_tenant : tenant;
  reply_answer : jsstring;
  reply_sources : list scored;
  reply_no_answer : bool
}.

Abbreviation stored := (gmap tenant snapshots).

(** A tenant's snapshots are empty until its first ingestion. *)
Definition snapshots_of (st : stored) (t : tenant) : snapshots :=
  default empty_snapshots (st !! t).

Definition query (eng : engine) (st : stored)
    (embed : jsstring -> option vector)
    (generate : jsstring -> list chunk -> generation)
    (cred : option credential) (question : jsstring) : reply + failure :=
  match resolve eng cred with
  | inr e => inr e
  | inl t =>
      let '(ranked, _) := retrieve eng embed (snapshots_of st t) question in
      let '(text, noAnswer) := synthesize generate question ranked in
      inl {| reply_tenant := t; reply_answer := text;
             reply_sources := ranked; reply_no_answer := noAnswer |}
  end.

(** Modelled from the spec: [ingest] of the Ingestion Pipeline (4.7),
    missing from the sources, cut where section 5 allows other requests
    to run: [prepare] validates, chunks and embeds without touching the
    indexes; [commit] is the atomic swap of the tenant's snapshots. *)
Fixpoint embed_all (embed : jsstring -> option vector) (cs : list chunk)
  : option (list chunk) :=
  match cs with
  | [] => Some []
  | c :: cs' =>
      match embed (span c), embed_all embed cs' with
      | Some v, Some r =>
          Some ({| owner := owner c; document := document c; seq := seq c;
                   offset := offset c; span := span c; dense := Some v |}
                  :: r)
      | _, _ => None
      end
  end.

Fixpoint number_chunks (t : tenant) (doc : jsstring) (i : nat)
    (pieces : list (nat * jsstring)) : list chunk :=
  match pieces with
  | [] => []
  | (start, text) :: rest =>
      {| owner := t; document := doc; seq := i; offset := start;
         span := text; dense := None |}
        :: number_chunks t doc (S i) rest
  end.

Record job := Job {
  job_tenant : tenant;
  job_document : jsstring;
  job_chunks : list chunk
}.

Definition prepare (eng : engine) (embed : jsstring -> option vector)
    (t : tenant) (filename content : jsstring) : job + failure :=
  if negb (truthy content
           && (length content <=? max_size eng)%nat
           && accepted_format eng filename content)
  then inr ValidationError
  else
    match chunk_text eng content with
    | inr e => inr e
    | inl pieces =>
        match embed_all embed (number_chunks t filename 0 pieces) with
        | None => inr ProviderUnavailable
        | Some cs =>
            inl {| job_tenant := t; job_document := filename;
                   job_chunks := cs |}
        end
    end.

(** Re-ingesting a document replaces its earlier chunks. *)
Definition supersede (doc : jsstring) (new old : list chunk) : list chunk :=
  List.filter (fun c => negb (units_eqb (document c) doc)) old ++ new.

Definition commit (j : job) (st : stored) : stored :=
  let old := snapshots_of st (job_tenant j) in
  <[ job_tenant j :=
       {| lexical_index :=
            supersede (job_document j) (job_chunks j) (lexical_index old);
          semantic_index :=
            supersede (job_document j) (job_chunks j) (semantic_index old) |} ]>
    st.

(** Modelled from the spec: the concurrency model of section 5, missing
    from the sources.  Requests of any tenants interleave; an ingestion
    in progress is a prepared job waiting for its swap; a query reads the
    snapshots that are in place when it runs. *)
Record world := World {
  store : stored;
  jobs : list job
}.

Definition start : world := {| store := ∅; jobs := [] |}.

Inductive operation :=
| IngestBegin (cred : option credential) (filename content : jsstring)
    (embed : jsstring -> option vector)
| IngestCommit (i : nat).

Definition perform (eng : engine) (w : world) (o : operation) : world :=
  match o with
  | IngestBegin cred filename content embed =>
      match resolve eng cred with
      | inr _ => w
      | inl t =>
          match prepare eng embed t filename content with
          | inl j => {| store := store w; jobs := jobs w ++ [ j ] |}
          | inr _ => w
          end
      end
  | IngestCommit i =>
      match jobs w !! i with
      | Some j => {| store := commit j (store w); jobs := delete i (jobs w) |}
      | None => w
      end
  end.

Definition after (eng : engine) (ops : list operation) : world :=
  foldl (perform eng) start ops.

(** *** The invariant of isolation *)

(** Every chunk of a list belongs to tenant [t]. *)
Definition all_owned_by (t : tenant) (cs : list chunk) : Prop :=
  Forall (fun c => owner c = t) cs.

(** The invariant of the worlds: a tenant's snapshots hold its own chunks
    only, and so does every job waiting for its swap. *)
Definition partitioned (w : world) : Prop :=
  (forall t snap, store w !! t = Some snap ->
     all_owned_by t (lexical_index snap)
     /\ all_owned_by t (semantic_index snap))
  /\ Forall (fun j => all_owned_by (job_tenant j) (job_chunks j)) (jobs w).

End Backend.

(* ===================================================================== *)
(** ** What is shown, and what the text asks                              *)
(* ===================================================================== *)

(** The properties below are stated on what a rendered tree shows (the
    leaves under the elements of a class), on the requests a run has
    sent, and on the following readings of the text. *)

(** *** The upload component *)

(** What the text asks of a file: a name with the [.txt] suffix and a size
    in the interval from 1 to 5 MiB. *)
Definition acceptable (f : Http.file) : Prop :=
  (exists stem, name f = stem ++ utf16 ".txt")
  /\ 0 < size f <= 5 * 1024 * 1024.

(** *** Requests *)

(** Two requests that differ at most in what they carry under the header
    [name]. *)
Definition same_outside_header (name : string) (r r' : request) : Prop :=
  url r' = url r
  /\ meth r' = meth r
  /\ payload r' = payload r
  /\ other_headers name r' = other_headers name r.

(** *** The application *)

(** What the error banner shows. *)
Definition error_shown (s : App.state) : list node :=
  List.flat_map leaves (by_class_in "error-text" (App.error_view s)).

(** The error banner as [App] mounts it: [ErrorMessage] stands in the
    branch of [activeTab === 'search'], so the upload tab shows none. *)
Definition banner_on_screen (s : App.state) : rendered :=
  match App.activeTab s with
  | App.Search => App.error_view s
  | App.Upload => None
  end.

(** What the backend-status badge shows. *)
Definition status_shown (s : App.state) : list node :=
  leaves (App.backend_status_badge s).

(** The configurations the running application can be in: either no
    query is in flight, the form is enabled and at most one of result and
    error is set; or exactly one query is in flight, the form is disabled
    and both are clear. *)
Definition settled_or_single (c : App.config) : Prop :=
  match App.queries c with
  | [] =>
      App.loading (App.app c) = false
      /\ (App.result (App.app c) = None \/ App.error (App.app c) = None)
  | [ _ ] =>
      App.loading (App.app c) = true
      /\ App.result (App.app c) = None
      /\ App.error (App.app c) = None
  | _ => False
  end.

(** The reply that settles the mount effect's request in a run: the
    first one that arrives. *)
Fixpoint first_health_reply (evs : list App.event)
  : option (promise (response health)) :=
  match evs with
  | [] => None
  | App.HealthSettled reply :: _ => Some reply
  | _ :: evs' => first_health_reply evs'
  end.

(** What the effect's callbacks store for a reply. *)
Definition health_stored (env : option jsstring)
    (reply : promise (response health)) : health :=
  match Api.checkHealth env (fun _ => reply) with
  | Resolved h => h
  | Rejected _ => Health (utf16 "error")
  end.

(** *** The results panel *)

(** What the panel shows in its tenant badge, answer box, no-answer
    notice, source items and no-sources paragraph. *)
Definition tenant_shown (view : rendered) : list node :=
  List.flat_map leaves (by_class_in "tenant-badge" view).

Definition answer_shown (view : rendered) : list node :=
  List.flat_map leaves (by_class_in "answer-box" view).

Definition notice_shown (view : rendered) : list node :=
  List.flat_map leaves (by_class_in "no-answer-message" view).

Definition sources_shown (view : rendered) : list (list node) :=
  map leaves (by_class_in "source-item" view).

Definition no_sources_shown (view : rendered) : list node :=
  List.flat_map leaves (by_class_in "no-sources" view).

(** What the browser shows of one cited source, in order. *)
Definition source_shown (s : source) : list node :=
  [ Text (utf16 "📄 "); Text (doc_id s);
    Text (utf16 "Chunk "); Number (chunk_id s);
    Text (utf16 " • Score: "); Text (score s);
    Text (excerpt s) ].

(** *** Sample servers and tenants *)

(** The 401 of the README's [test_wrong_api_key], met by the client. *)
Definition unauthorized_server (_ : request)
  : promise (response query_result) :=
  Resolved (Response 401 (Rejected (Error (utf16 "Unexpected token")))).

(** Two tenants, as the README registers them, whose uploads overlap:
    the upload of tenant B is prepared after, and committed before, the
    one of tenant A. *)
Definition demo_engine : Backend.engine :=
  {| Backend.registry :=
       {[ utf16 "tenantA_key" := utf16 "tenantA";
          utf16 "tenantB_key" := utf16 "tenantB" ]};
     Backend.window := 420;
     Backend.overlap := 80;
     Backend.max_size := 4096;
     Backend.accepted_format := fun filename _ => endsWith filename (utf16 ".txt");
     Backend.cosine := fun _ _ => 1%Q;
     Backend.lexical_score := fun _ _ _ => 1%Q;
     Backend.T_sem := (1 # 2)%Q;
     Backend.T_min := (1 # 4)%Q;
     Backend.top_k := 3 |}.

Definition demo_embed (_ : jsstring) : option Backend.vector := Some [ 1%Q ].

Definition demo_operations : list Backend.operation :=
  [ Backend.IngestBegin (Some (utf16 "tenantA_key")) (utf16 "docA1.txt")
      (utf16 "déclaration sous 5 jours ouvrés") demo_embed;
    Backend.IngestBegin (Some (utf16 "tenantB_key")) (utf16 "docB1.txt")
      (utf16 "résiliation par lettre recommandée") demo_embed;
    Backend.IngestCommit 1;
    Backend.IngestCommit 0 ].

(** *** Runs of the application *)

(** A query request whose question has a unit that is not white space,
    built from a form that was submitted in [evs]. *)
Definition submitted_query (env : option jsstring) (evs : list App.event)
    (r : request) : Prop :=
  exists form,
    In (App.SubmitForm form) evs
    /\ r = Api.query_request env (QueryForm.question form)
             (QueryForm.apiKey form)
    /\ all_white_space (QueryForm.question form) = false.

(** *** Runs of the upload component *)

(** An upload request for a file that passes the validation. *)
Definition acceptable_upload (r : request) : Prop :=
  exists f key, r = UploadDocument.upload_request f key /\ acceptable f.

(** The reply is a response with a status in 200-299 whose body parsed:
    the one case in which [handleUpload] reaches [setSuccess]. *)
Definition upload_succeeds (reply : promise (response Upload.upload_body))
  : bool :=
  match reply with
  | Resolved resp =>
      ok resp && match json resp with Resolved _ => true | Rejected _ => false end
  | Rejected _ => false
  end.

(** The configurations of the mounted upload component: the selected
    file, if any, passes the validation; and either no upload is in
    flight and [uploading] is false, or exactly one is, [uploading] is
    true and its request carries the key that is selected. *)
Definition validated_or_single (c : Upload.config) : Prop :=
  (forall f, UploadDocument.file (Upload.ui c) = Some f -> acceptable f)
  /\ match Upload.uploads c with
     | [] => UploadDocument.uploading (Upload.ui c) = false
     | [ r ] =>
         UploadDocument.uploading (Upload.ui c) = true
         /\ header_values "X-API-KEY" r
            = [ UploadDocument.apiKey (Upload.ui c) ]
     | _ => False
     end.

(** *** Runs of the application with its tabs *)

(** What the application may send after its health check: a query request
    of a form that was submitted, or an upload request for a file that
    passes the validation. *)
Definition page_request (env : option jsstring) (evs : list Page.event)
    (r : request) : Prop :=
  submitted_query env (Page.app_events evs) r \/ acceptable_upload r.

(** The upload component is mounted exactly on the upload tab, in one of
    the configurations of its own runs. *)
Definition upload_on_its_tab (c : Page.config) : Prop :=
  match Page.upload c with
  | Some u =>
      App.activeTab (App.app (Page.app c)) = App.Upload
      /\ validated_or_single u
  | None => App.activeTab (App.app (Page.app c)) = App.Search
  end.

(** The message the [catch] block stores for a reply that fails. *)
Definition upload_failure_message
    (reply : promise (response Upload.upload_body)) : jsstring :=
  match reply with
  | Resolved (Response _ (Resolved body)) =>
      match Upload.detail body with
      | Some d => if truthy d then d else utf16 "Erreur lors de l'upload"
      | None => utf16 "Erreur lors de l'upload"
      end
  | Resolved (Response _ (Rejected e)) | Rejected e =>
      if truthy (message e) then message e
      else utf16 "Une erreur est survenue lors de l'upload"
  end.

(** *** Reading a size back *)

(** The value of a digit, of a string of digits, and of a string of the
    form [digits.dd] in hundredths. *)
Definition digit_value (c : code_unit) : option N :=
  if (48 <=? c) && (c <=? 57) then Some (c - 48) else None.

Fixpoint decimal_value_from (acc : N) (s : jsstring) : option N :=
  match s with
  | [] => Some acc
  | c :: s' =>
      match digit_value c with
      | Some d => decimal_value_from (10 * acc + d) s'
      | None => None
      end
  end.

Definition hundredths_shown (s : jsstring) : option N :=
  match rev s with
  | c2 :: c1 :: point :: (_ :: _) as whole =>
      if point =? 46 then decimal_value_from 0 (rev whole ++ [ c1; c2 ])
      else None
  | _ => None
  end.

(** The code units of the digits of a decimal numeral. *)
Fixpoint digit_units (d : Decimal.uint) : jsstring :=
  match d with
  | Decimal.Nil => []
  | Decimal.D0 d => 48 :: digit_units d
  | Decimal.D1 d => 49 :: digit_units d
  | Decimal.D2 d => 50 :: digit_units d
  | Decimal.D3 d => 51 :: digit_units d
  | Decimal.D4 d => 52 :: digit_units d
  | Decimal.D5 d => 53 :: digit_units d
  | Decimal.D6 d => 54 :: digit_units d
  | Decimal.D7 d => 55 :: digit_units d
  | Decimal.D8 d => 56 :: digit_units d
  | Decimal.D9 d => 57 :: digit_units d
  end.

(* ===================================================================== *)
(** * Properties                                                          *)
(* ===================================================================== *)

(** ** Strings *)

Module JSFacts.

Lemma units_eqb_eq (s t : jsstring) : units_eqb s t = true <-> s = t.
Proof.
  revert t; induction s as [|a s IH]; intros [|b t]; simpl;
    try (split; [discriminate | congruence]); try tauto.
  rewrite andb_true_iff, N.eqb_eq, IH.
  split; [intros [-> ->]; reflexivity | intros [= -> ->]; auto].
Qed.

Lemma endsWith_suffix (s t : jsstring) :
  endsWith s t = true <-> exists p, s = p ++ t.
Proof.
  unfold endsWith. rewrite andb_true_iff, Nat.leb_le, units_eqb_eq.
  split.
  - intros [_ Heq]. exists (firstn (length s - length t)%nat s).
    transitivity (firstn (length s - length t)%nat s
                  ++ skipn (length s - length t)%nat s).
    + symmetry. apply firstn_skipn.
    + f_equal. exact Heq.
  - intros [p ->]. rewrite length_app. split; [lia|].
    replace (length p + length t - length t)%nat with (length p) by lia.
    rewrite skipn_app, skipn_all, Nat.sub_diag. reflexivity.
Qed.

Lemma trimStart_nil (s : jsstring) :
  trimStart s = [] <-> all_white_space s = true.
Proof.
  induction s as [|c s IH]; simpl; [tauto|].
  destruct (is_white_space c); simpl; [exact IH|].
  split; discriminate.
Qed.

Lemma trimStart_head (s : jsstring) c r :
  trimStart s = c :: r -> is_white_space c = false.
Proof.
  induction s as [|d s IH]; simpl; [discriminate|].
  destruct (is_white_space d) eqn:E; [exact IH|].
  intros [= <- _]. exact E.
Qed.

Lemma all_white_space_rev (s : jsstring) :
  all_white_space (rev s) = all_white_space s.
Proof.
  unfold all_white_space. induction s as [|c s IH]; simpl; [reflexivity|].
  rewrite forallb_app, IH. simpl. rewrite andb_true_r. apply andb_comm.
Qed.

Lemma trimEnd_nil (s : jsstring) :
  trimEnd s = [] <-> all_white_space s = true.
Proof.
  unfold trimEnd. rewrite <- all_white_space_rev, <- trimStart_nil.
  split; intros H.
  - apply (f_equal (@rev _)) in H. rewrite rev_involutive in H. exact H.
  - rewrite H. reflexivity.
Qed.

(** The trimmed string is empty exactly when every unit is white space. *)
Lemma trim_nil (s : jsstring) :
  trim s = [] <-> all_white_space s = true.
Proof.
  unfold trim. rewrite trimEnd_nil.
  destruct (trimStart s) as [|c r] eqn:E.
  - apply trimStart_nil in E. rewrite E. simpl. tauto.
  - pose proof (trimStart_head _ _ _ E) as Hc.
    simpl. rewrite Hc. simpl. split; [discriminate|].
    intros H. apply trimStart_nil in H. congruence.
Qed.

(** The decoder of literals on one, two, three and four byte sequences. *)
Example utf16_examples :
  utf16 "a" = [97]
  /\ utf16 "é" = [233]
  /\ utf16 "•" = [8226]
  /\ utf16 "📄" = [55357; 56516].
Proof. repeat split. Qed.

End JSFacts.

Import JSFacts.

(** ** The search form *)

(** The form calls [onSubmit] with its own fields, and does so exactly
    when some unit of the question is not white space. *)
Lemma handleSubmit_spec (form : QueryForm.state) :
  QueryForm.handleSubmit form
  = if all_white_space (QueryForm.question form) then None
    else Some (QueryForm.question form, QueryForm.apiKey form).
Proof.
  unfold QueryForm.handleSubmit.
  destruct (all_white_space (QueryForm.question form)) eqn:Hws.
  - apply trim_nil in Hws. rewrite Hws. reflexivity.
  - destruct (trim (QueryForm.question form)) eqn:Htrim; [|reflexivity].
    apply trim_nil in Htrim. congruence.
Qed.

(** C8. Submitting the query form invokes [onSubmit] only when the trimmed
    question is non-empty; a question made of white space only, or the
    empty question, invokes nothing, and the application sends no request
    for it, whatever state it is in. *)
Theorem blank_question_never_submitted (form : QueryForm.state) :
  match QueryForm.handleSubmit form with
  | Some (question, apiKey) =>
      question = QueryForm.question form
      /\ apiKey = QueryForm.apiKey form
      /\ truthy (trim question) = true
      /\ all_white_space question = false
  | None =>
      trim (QueryForm.question form) = []
      /\ all_white_space (QueryForm.question form) = true
      /\ forall env c, App.step env c (App.SubmitForm form) = (c, [])
  end.
Proof.
  rewrite handleSubmit_spec.
  destruct (all_white_space (QueryForm.question form)) eqn:Hws.
  - pose proof (proj2 (trim_nil _) Hws) as Htrim.
    repeat split; auto.
    intros env c. unfold App.step, QueryForm.submit_disabled.
    rewrite Htrim. simpl. rewrite orb_true_r. reflexivity.
  - repeat split; auto.
    destruct (trim (QueryForm.question form)) eqn:Htrim; [|reflexivity].
    apply trim_nil in Htrim. congruence.
Qed.

(** White space in the sense of [trim] covers more than the ASCII blank:
    a question of a no-break space, a tab and a line separator is not
    submitted, while one letter between blanks is. *)
Example blank_question_examples :
  QueryForm.handleSubmit (QueryForm.State [160; 9; 8232] (utf16 "tenantB_key"))
  = None
  /\ QueryForm.handleSubmit (QueryForm.State (utf16 "  a ") (utf16 "tenantB_key"))
     = Some (utf16 "  a ", utf16 "tenantB_key").
Proof. split; reflexivity. Qed.

(** ** The upload component *)

Lemma acceptable_dec (f : Http.file) :
  acceptable f
  <-> endsWith (name f) (utf16 ".txt") = true
      /\ (size f =? 0) = false
      /\ (5 * 1024 * 1024 <? size f) = false.
Proof.
  unfold acceptable.
  rewrite endsWith_suffix, N.eqb_neq, N.ltb_ge. intuition lia.
Qed.

(** C4. [handleFileChange] selects the offered file and clears the error
    exactly when the name ends with [.txt] and the size is positive and
    at most 5 * 1024 * 1024; any other file leaves no file selected and
    an error message naming the defect, after which there is no upload
    button and [handleUpload] sends no request. *)
Theorem handleFileChange_accepts_iff
    (f : Http.file) (others : list Http.file) (s : UploadDocument.state) :
  let s' := UploadDocument.handleFileChange (f :: others) s in
  (UploadDocument.file s' = Some f /\ UploadDocument.error s' = None
   <-> acceptable f)
  /\ (~ acceptable f ->
      UploadDocument.file s' = None
      /\ UploadDocument.upload_button_shown s' = false
      /\ snd (UploadDocument.handleUpload s') = None
      /\ UploadDocument.error s'
         = Some (if negb (endsWith (name f) (utf16 ".txt")) then
                   utf16 "Seuls les fichiers .txt sont acceptés"
                 else if size f =? 0 then utf16 "Le fichier est vide"
                 else utf16 "Le fichier est trop volumineux (max 5MB)")).
Proof.
  intros s'. subst s'. rewrite acceptable_dec.
  unfold UploadDocument.handleFileChange. cbn [head].
  destruct (endsWith (name f) (utf16 ".txt")) eqn:Hext; cbn [negb];
    [destruct (size f =? 0) eqn:Hzero;
     [|destruct (5 * 1024 * 1024 <? size f) eqn:Hbig]|].
  all: split;
    [ split; [intros [Hf _]; try discriminate Hf; auto | intuition congruence]
    | intros Hno; try (exfalso; apply Hno; auto; fail); repeat split ].
Qed.

(** The bounds are the ones of the source: a [.txt] file of one byte and
    one of exactly 5 MiB are selected; an empty one, one of 5 MiB and one
    byte, and one named [.TXT] are not. *)
Example handleFileChange_examples :
  let pick n sz :=
    UploadDocument.file
      (UploadDocument.handleFileChange [File (utf16 n) sz]
         UploadDocument.initial) in
  pick "contrat.txt" 1 = Some (File (utf16 "contrat.txt") 1)
  /\ pick "contrat.txt" 5242880 = Some (File (utf16 "contrat.txt") 5242880)
  /\ pick "contrat.txt" 0 = None
  /\ pick "contrat.txt" 5242881 = None
  /\ pick "contrat.TXT" 10 = None
  /\ pick "txt" 10 = None.
Proof. repeat split. Qed.

(** C9. Dropping a file on the upload zone and choosing it in the file
    picker lead to the same component state, hence to the same decision:
    whatever else the drop or the selection carries, both handlers act on
    the first file only, and the drop handler hands it to
    [handleFileChange]. *)
Theorem handleDrop_same_as_picker
    (f : Http.file) (dropped_after picked_after : list Http.file)
    (s : UploadDocument.state) :
  UploadDocument.handleDrop (f :: dropped_after) s
  = UploadDocument.handleFileChange (f :: picked_after) s
  /\ (UploadDocument.file (UploadDocument.handleDrop (f :: dropped_after) s)
      = Some f
      <-> UploadDocument.file
            (UploadDocument.handleFileChange (f :: picked_after) s)
          = Some f)
  /\ UploadDocument.handleDrop [] s = UploadDocument.handleFileChange [] s.
Proof.
  assert (UploadDocument.handleDrop (f :: dropped_after) s
          = UploadDocument.handleFileChange (f :: picked_after) s) as Heq.
  { unfold UploadDocument.handleDrop, UploadDocument.handleFileChange.
    reflexivity. }
  split; [exact Heq|]. split; [rewrite Heq; tauto|reflexivity].
Qed.

(** ** The requests *)

(** Goals between closed literals and record projections are settled by
    evaluation; elsewhere a literal is left as written. *)
Ltac evaluate := vm_compute; reflexivity.

Opaque utf16.

(** [queryDocuments] by cases on what [fetch] gives: the [catch] block
    rethrows, so the outcome is the one of the [try] block. *)
Lemma queryDocuments_cases
    (env : option jsstring)
    (fetch : request -> promise (response query_result))
    (question apiKey : jsstring) :
  Api.queryDocuments env fetch question apiKey
  = match fetch (Api.query_request env question apiKey) with
    | Rejected e => Rejected e
    | Resolved resp =>
        if ok resp then json resp
        else if status resp =? 401 then
          Rejected (Error (utf16 "Clé API invalide ou manquante"))
        else
          Rejected (Error (utf16 "Erreur serveur: "
                             ++ number_to_string (status resp)))
    end.
Proof.
  unfold Api.queryDocuments, try_catch, await, throw.
  destruct (fetch _) as [resp|e]; [|reflexivity].
  destruct (ok resp); cbn [negb].
  - destruct (json resp); reflexivity.
  - destruct (status resp =? 401); reflexivity.
Qed.

(** C2. [queryDocuments] passes to [fetch] the request [q] and no other:
    its outcome is the body of the response that [fetch] gives for [q]
    when that response has a status in 200-299, and two servers that
    answer [q] alike give the same outcome.  That request carries the key
    as the one value of the [X-API-KEY] header; its body is the JSON
    object with the single field [question]; and nothing but that header
    depends on the key.
    The request of [handleUpload] is built from the selected file and the
    key alike: the key is the one value of [X-API-KEY] and nothing else
    depends on it, the file is the single part of the multipart body and
    neither the URL nor the headers depend on it. *)
Theorem credential_only_in_header
    (env : option jsstring) (question apiKey : jsstring)
    (f : Http.file) (s : UploadDocument.state) :
  let q := Api.query_request env question apiKey in
  let u := UploadDocument.upload_request f apiKey in
  ((forall fetch resp,
      fetch q = Resolved resp -> ok resp = true ->
      Api.queryDocuments env fetch question apiKey = json resp)
   /\ (forall fetch fetch',
         fetch q = fetch' q ->
         Api.queryDocuments env fetch question apiKey
         = Api.queryDocuments env fetch' question apiKey)
   /\ header_values "X-API-KEY" q = [ apiKey ]
   /\ payload q = JsonBody [ (utf16 "question", question) ]
   /\ forall apiKey',
        same_outside_header "X-API-KEY" q
          (Api.query_request env question apiKey'))
  /\ (snd (UploadDocument.handleUpload s)
      = option_map (fun f => UploadDocument.upload_request f
                               (UploadDocument.apiKey s))
          (UploadDocument.file s)
      /\ header_values "X-API-KEY" u = [ apiKey ]
      /\ payload u = FormBody [ (utf16 "file", f) ]
      /\ (forall apiKey',
            same_outside_header "X-API-KEY" u
              (UploadDocument.upload_request f apiKey'))
      /\ forall f',
           url (UploadDocument.upload_request f' apiKey) = url u
           /\ headers (UploadDocument.upload_request f' apiKey) = headers u).
Proof.
  intros q u. subst q u. split.
  - split.
    { intros fetch resp Hreply Hok.
      rewrite queryDocuments_cases, Hreply, Hok. reflexivity. }
    split.
    { intros fetch fetch' Hsame.
      rewrite !queryDocuments_cases, Hsame. reflexivity. }
    split; [evaluate|]. split; [evaluate|].
    intros apiKey'. unfold same_outside_header. repeat apply conj; evaluate.
  - split.
    + unfold UploadDocument.handleUpload.
      destruct (UploadDocument.file s); reflexivity.
    + split; [evaluate|]. split; [evaluate|].
      split; [intros apiKey'; unfold same_outside_header|intros f'];
        repeat apply conj; evaluate.
Qed.

(** The request of [queryDocuments] is the one [fetch] is called with:
    a server that answers that request alone gives the same outcome. *)
Lemma queryDocuments_sends_query_request
    (env : option jsstring)
    (fetch : request -> promise (response query_result))
    (question apiKey : jsstring) :
  Api.queryDocuments env fetch question apiKey
  = Api.queryDocuments env
      (fun _ => fetch (Api.query_request env question apiKey))
      question apiKey.
Proof. reflexivity. Qed.

(** The curl example of the README, rebuilt by the client. *)
Example query_request_example :
  Api.query_request None (utf16 "Quel est l email ?") (utf16 "tenantA_key")
  = {| url := utf16 "http://localhost:8000/query";
       meth := POST;
       headers := [ (utf16 "Content-Type", utf16 "application/json");
                    (utf16 "X-API-KEY", utf16 "tenantA_key") ];
       payload := JsonBody [ (utf16 "question", utf16 "Quel est l email ?") ] |}.
Proof. evaluate. Qed.

(** ** Queries: outcomes of the request *)

Lemma unauthorized_not_ok {A} (resp : response A) :
  status resp = 401 -> ok resp = false.
Proof. unfold ok. intros ->. reflexivity. Qed.

Lemma truthy_app_l (s t : jsstring) : truthy s = true -> truthy (s ++ t) = true.
Proof. destruct s; [discriminate|reflexivity]. Qed.

(** A rejected query stores the message of the error in the [error]
    state, or the default message when the error has none. *)
Lemma handleQuery_rejected
    (env : option jsstring)
    (fetch : request -> promise (response query_result))
    (question apiKey : jsstring) (s : App.state) (e : Http.error) :
  Api.queryDocuments env fetch question apiKey = Rejected e ->
  let s' := App.handleQuery env fetch question apiKey s in
  App.result s' = None
  /\ App.loading s' = false
  /\ App.error s'
     = Some (if truthy (message e) then message e
             else utf16 "Une erreur est survenue").
Proof.
  intros H s'. subst s'. unfold App.handleQuery. rewrite H.
  repeat apply conj; reflexivity.
Qed.

Lemma handleQuery_resolved
    (env : option jsstring)
    (fetch : request -> promise (response query_result))
    (question apiKey : jsstring) (s : App.state) (data : query_result) :
  Api.queryDocuments env fetch question apiKey = Resolved data ->
  let s' := App.handleQuery env fetch question apiKey s in
  App.result s' = Some data
  /\ App.loading s' = false
  /\ App.error s' = None.
Proof.
  intros H s'. subst s'. unfold App.handleQuery. rewrite H.
  repeat apply conj; reflexivity.
Qed.

Lemma error_shown_message (s : App.state) (m : jsstring) :
  App.error s = Some m -> truthy m = true ->
  error_shown s = [ Text (utf16 "Erreur:"); Text (utf16 " "); Text m ].
Proof.
  unfold error_shown, App.error_view, ErrorMessage.ErrorMessage,
    ErrorMessage.falsy.
  intros -> ->. reflexivity.
Qed.

(** C3. When the response to a query has status 401, the application ends
    with the invalid-key message in its error state and on the error
    banner, and with no result, so that nothing is rendered as an answer
    (in particular no response with [no_answer] set); for every other
    status outside 200-299 it ends with the generic message that quotes
    the status; and a result is rendered only if the response had a
    status in 200-299 (and a body that parsed). *)
Theorem unauthorized_query_is_auth_failure
    (env : option jsstring)
    (fetch : request -> promise (response query_result))
    (question apiKey : jsstring) (s : App.state) :
  let reply := fetch (Api.query_request env question apiKey) in
  let s' := App.handleQuery env fetch question apiKey s in
  (forall resp, reply = Resolved resp -> status resp = 401 ->
     App.error s' = Some (utf16 "Clé API invalide ou manquante")
     /\ error_shown s'
        = [ Text (utf16 "Erreur:"); Text (utf16 " ");
            Text (utf16 "Clé API invalide ou manquante") ]
     /\ App.result s' = None
     /\ App.results_view s' = None)
  /\ (forall resp, reply = Resolved resp ->
        ok resp = false -> status resp <> 401 ->
        App.error s'
        = Some (utf16 "Erreur serveur: " ++ number_to_string (status resp))
        /\ error_shown s'
           = [ Text (utf16 "Erreur:"); Text (utf16 " ");
               Text (utf16 "Erreur serveur: "
                       ++ number_to_string (status resp)) ]
        /\ App.result s' = None
        /\ App.results_view s' = None)
  /\ (App.results_view s' <> None ->
      exists resp data,
        reply = Resolved resp /\ ok resp = true
        /\ json resp = Resolved data
        /\ App.result s' = Some data /\ App.error s' = None).
Proof.
  intros reply s'.
  pose proof (queryDocuments_cases env fetch question apiKey) as Hcases.
  fold reply in Hcases.
  split; [|split].
  - intros resp Hreply H401.
    rewrite Hreply, (unauthorized_not_ok _ H401), H401 in Hcases.
    change (401 =? 401) with true in Hcases. cbv iota in Hcases.
    destruct (handleQuery_rejected env fetch question apiKey s _ Hcases)
      as (Hres & _ & Herr).
    fold s' in Hres, Herr. change (message (Error ?m)) with m in Herr.
    assert (App.error s' = Some (utf16 "Clé API invalide ou manquante"))
      as Herr' by (rewrite Herr; evaluate).
    unfold App.results_view. rewrite Hres.
    repeat apply conj; auto.
    apply error_shown_message; [exact Herr'|evaluate].
  - intros resp Hreply Hok Hne.
    rewrite Hreply, Hok in Hcases.
    apply N.eqb_neq in Hne. rewrite Hne in Hcases.
    destruct (handleQuery_rejected env fetch question apiKey s _ Hcases)
      as (Hres & _ & Herr).
    fold s' in Hres, Herr. change (message (Error ?m)) with m in Herr.
    assert (truthy (utf16 "Erreur serveur: "
                      ++ number_to_string (status resp)) = true) as Hm
      by (apply truthy_app_l; evaluate).
    rewrite Hm in Herr.
    unfold App.results_view. rewrite Hres.
    repeat apply conj; auto.
    apply error_shown_message; assumption.
  - intros Hview.
    destruct (Api.queryDocuments env fetch question apiKey) as [data|e] eqn:Hq.
    + destruct (handleQuery_resolved env fetch question apiKey s _ Hq)
        as (Hres & _ & Herr).
      fold s' in Hres, Herr.
      destruct reply as [resp|e] eqn:Hreply; [|discriminate Hcases].
      destruct (ok resp) eqn:Hok.
      * exists resp, data. repeat apply conj; auto.
      * destruct (status resp =? 401); discriminate Hcases.
    + destruct (handleQuery_rejected env fetch question apiKey s _ Hq)
        as (Hres & _ & _).
      fold s' in Hres. exfalso. apply Hview.
      unfold App.results_view. rewrite Hres. reflexivity.
Qed.

Lemma unauthorized_query_witness :
  let s' :=
    App.handleQuery None unauthorized_server
      (utf16 "Quel est l email ?") (utf16 "tenantC_key") App.initial in
  App.error s' = Some (utf16 "Clé API invalide ou manquante")
  /\ App.result s' = None
  /\ App.results_view s' = None.
Proof.
  intros s'.
  destruct (unauthorized_query_is_auth_failure None unauthorized_server
              (utf16 "Quel est l email ?") (utf16 "tenantC_key") App.initial)
    as [H401 _].
  destruct (H401 _ eq_refl eq_refl) as (Herr & _ & Hres & Hview).
  repeat apply conj; assumption.
Defined.

(** A 500 is reported with its status. *)
Example server_error_example :
  App.error
    (App.handleQuery None
       (fun _ => Resolved (Response 500 (Rejected (Error []))))
       (utf16 "Quel est l email ?") (utf16 "tenantA_key") App.initial)
  = Some (utf16 "Erreur serveur: 500").
Proof. evaluate. Qed.

(** ** Queries: result and error *)

Lemma settled_or_single_exclusive (c : App.config) :
  settled_or_single c ->
  App.result (App.app c) = None \/ App.error (App.app c) = None.
Proof.
  unfold settled_or_single.
  destruct (App.queries c) as [|x [|y l]]; intuition.
Qed.

Lemma handleQuery_settled_exclusive
    (outcome : promise query_result) (s : App.state) :
  App.result s = None -> App.error s = None ->
  let s' := App.handleQuery_settled outcome s in
  App.loading s' = false
  /\ (App.result s' = None \/ App.error s' = None).
Proof.
  intros Hr He s'. subst s'.
  destruct outcome; cbn; rewrite ?Hr, ?He; auto.
Qed.

Lemma step_settled_or_single
    (env : option jsstring) (c : App.config) (e : App.event) :
  settled_or_single c -> settled_or_single (fst (App.step env c e)).
Proof.
  intros Hinv. destruct e as [form|i reply|reply| |t]; cbn [App.step].
  - destruct (QueryForm.submit_disabled _ form) eqn:Hdis; [exact Hinv|].
    destruct (QueryForm.handleSubmit form) as [[question apiKey]|];
      [|exact Hinv].
    unfold QueryForm.submit_disabled in Hdis.
    apply orb_false_elim in Hdis as [Hload _].
    unfold settled_or_single in *. cbn.
    destruct (App.queries c) as [|x [|y l]]; cbn.
    + repeat apply conj; reflexivity.
    + destruct Hinv as [Hinv _]. congruence.
    + contradiction.
  - unfold settled_or_single in Hinv.
    destruct (App.queries c) as [|[question apiKey] [|y l]] eqn:Hq;
      [| |contradiction].
    + change (settled_or_single c). unfold settled_or_single.
      rewrite Hq. exact Hinv.
    + destruct i as [|i]; cbn.
      * destruct Hinv as (_ & Hr & He). unfold settled_or_single. cbn.
        apply handleQuery_settled_exclusive; assumption.
      * change (settled_or_single c). unfold settled_or_single.
        rewrite Hq. exact Hinv.
  - destruct (App.health_pending c); [|exact Hinv].
    unfold settled_or_single in *. cbn.
    destruct (Api.checkHealth env _); cbn; exact Hinv.
  - unfold settled_or_single in *. cbn.
    destruct (App.queries c) as [|x [|y l]]; intuition.
  - exact Hinv.
Qed.

Lemma run_from_settled_or_single
    (env : option jsstring) (evs : list App.event)
    (c : App.config) (sent : list request) :
  settled_or_single c ->
  settled_or_single (fst (App.run_from env c sent evs)).
Proof.
  revert c sent. induction evs as [|e evs IH]; intros c sent Hinv; cbn.
  - exact Hinv.
  - pose proof (step_settled_or_single env c e Hinv) as Hstep.
    destruct (App.step env c e) as [c' out]. apply IH. exact Hstep.
Qed.

(** C10. One call of [handleQuery] clears result and error before the
    request, sets only the result when the request succeeds and only the
    error when it fails, so that at most one of the two is set when it
    completes; and in the running application, where the form is disabled
    while a query is in flight, no sequence of events reaches a state
    with both set. *)
Theorem result_and_error_exclusive
    (env : option jsstring)
    (fetch : request -> promise (response query_result))
    (question apiKey : jsstring) (s : App.state) :
  let cleared := App.handleQuery_begin s in
  let outcome := Api.queryDocuments env fetch question apiKey in
  let s' := App.handleQuery env fetch question apiKey s in
  (App.result cleared = None /\ App.error cleared = None)
  /\ (forall data, outcome = Resolved data ->
        App.result s' = Some data /\ App.error s' = None)
  /\ (forall e, outcome = Rejected e ->
        App.result s' = None
        /\ exists m, App.error s' = Some m /\ truthy m = true)
  /\ (App.result s' = None \/ App.error s' = None)
  /\ forall evs,
       let c := fst (App.run env evs) in
       App.result (App.app c) = None \/ App.error (App.app c) = None.
Proof.
  intros cleared outcome s'. split; [split; reflexivity|].
  assert (forall data, outcome = Resolved data ->
            App.result s' = Some data /\ App.error s' = None) as Hok.
  { intros data H.
    destruct (handleQuery_resolved env fetch question apiKey s data H)
      as (Hr & _ & He). split; assumption. }
  assert (forall e, outcome = Rejected e ->
            App.result s' = None
            /\ exists m, App.error s' = Some m /\ truthy m = true) as Hko.
  { intros e H.
    destruct (handleQuery_rejected env fetch question apiKey s e H)
      as (Hr & _ & He). split; [exact Hr|].
    eexists. split; [exact He|].
    destruct (truthy (message e)) eqn:Hm; [exact Hm|evaluate]. }
  split; [exact Hok|]. split; [exact Hko|]. split.
  - destruct outcome as [data|e] eqn:Ho.
    + right. apply (Hok data eq_refl).
    + left. apply (Hko e eq_refl).
  - intros evs c. subst c. apply settled_or_single_exclusive.
    unfold App.run, App.mount. apply run_from_settled_or_single.
    unfold settled_or_single. cbn. auto.
Qed.

(** ** The health check *)

Lemma step_backendStatus
    (env : option jsstring) (c : App.config) (e : App.event) :
  let c' := fst (App.step env c e) in
  match e with
  | App.HealthSettled reply =>
      if App.health_pending c then
        App.backendStatus (App.app c') = Some (health_stored env reply)
        /\ App.health_pending c' = false
      else
        App.backendStatus (App.app c') = App.backendStatus (App.app c)
        /\ App.health_pending c' = false
  | _ =>
      App.backendStatus (App.app c') = App.backendStatus (App.app c)
      /\ App.health_pending c' = App.health_pending c
  end.
Proof.
  destruct e as [form|i reply|reply| |t]; cbn [App.step].
  - destruct (QueryForm.submit_disabled _ form); [split; reflexivity|].
    destruct (QueryForm.handleSubmit form) as [[question apiKey]|];
      split; reflexivity.
  - destruct (App.queries c !! i) as [[question apiKey]|];
      [|split; reflexivity].
    cbn. destruct (Api.queryDocuments env _ question apiKey);
      split; reflexivity.
  - destruct (App.health_pending c) eqn:Hp; [|split; [reflexivity|exact Hp]].
    unfold health_stored. cbn.
    destruct (Api.checkHealth env _); split; reflexivity.
  - split; reflexivity.
  - split; reflexivity.
Qed.

Lemma run_from_backendStatus
    (env : option jsstring) (evs : list App.event)
    (c : App.config) (sent : list request) :
  App.backendStatus (App.app (fst (App.run_from env c sent evs)))
  = if App.health_pending c then
      match first_health_reply evs with
      | Some reply => Some (health_stored env reply)
      | None => App.backendStatus (App.app c)
      end
    else App.backendStatus (App.app c).
Proof.
  revert c sent. induction evs as [|e evs IH]; intros c sent.
  - cbn. destruct (App.health_pending c); reflexivity.
  - cbn [App.run_from]. pose proof (step_backendStatus env c e) as Hstep.
    destruct (App.step env c e) as [c' out]. cbn [fst] in Hstep.
    rewrite IH.
    destruct e as [form|i reply|reply| |t]; cbn [first_health_reply].
    3: { destruct (App.health_pending c); destruct Hstep as [Hst Hp];
         rewrite Hp; exact Hst. }
    all: destruct Hstep as [Hst Hp]; rewrite Hp, Hst; reflexivity.
Qed.




Lemma status_shown_cases (s : App.state) :
  status_shown s
  = if App.status_is "ok" s then [ Text (utf16 "Système opérationnel") ]
    else if App.status_is "error" s then
      [ Text (utf16 "Service indisponible") ]
    else [ Text (utf16 "Connexion en cours...") ].
Proof.
  unfold status_shown, App.backend_status_badge.
  destruct (App.status_is "ok" s); [reflexivity|].
  destruct (App.status_is "error" s); reflexivity.
Qed.





(** A failed health request shows the service as unavailable. *)
Example health_failure_example :
  status_shown
    (App.app
       (fst (App.run None
               [ App.HealthSettled (Rejected (Error (utf16 "Failed to fetch"))) ])))
  = [ Text (utf16 "Service indisponible") ].
Proof. evaluate. Qed.

(** ** The results panel *)

Lemma leaves_source_item (s : source) :
  leaves (QueryResults.source_item s) = source_shown s.
Proof. reflexivity. Qed.

(** The source items are the elements of their class, and hold no element
    of the other classes of the panel. *)
Lemma no_class_in_source_items (c : string) (l : list source) :
  String.eqb "source-item" c = false ->
  String.eqb "source-header" c = false ->
  String.eqb "source-doc" c = false ->
  String.eqb "source-meta" c = false ->
  String.eqb "source-excerpt" c = false ->
  String.eqb no_class c = false ->
  List.flat_map (by_class c) (map QueryResults.source_item l) = [].
Proof.
  intros H1 H2 H3 H4 H5 H6.
  induction l as [|s l IH]; [reflexivity|].
  cbn [map List.flat_map]. rewrite IH.
  unfold QueryResults.source_item.
  cbn [by_class List.flat_map app]. rewrite H1, H2, H3, H4, H5, H6.
  reflexivity.
Qed.

Lemma source_items_by_class (l : list source) :
  List.flat_map (by_class "source-item") (map QueryResults.source_item l)
  = map QueryResults.source_item l.
Proof.
  induction l as [|s l IH]; [reflexivity|].
  cbn [map List.flat_map]. rewrite IH. reflexivity.
Qed.

(** Class by class, the elements of a rendered panel. *)
Ltac panel_by_class :=
  cbn [by_class_in by_class no_class String.eqb Ascii.eqb Bool.eqb app
       List.flat_map leaves];
  rewrite ?source_items_by_class;
  rewrite ?no_class_in_source_items by reflexivity;
  cbn [app List.flat_map leaves].

(** C5. For a result [r], the panel is rendered; it shows the answer text
    in the answer box exactly when [no_answer] is false, and the
    no-answer notice exactly when [no_answer] is true, in which case
    there is no answer box at all.  A response with [no_answer] set is
    handled as any successful response: it becomes the result, the error
    state stays clear and no error banner is rendered. *)
Theorem answer_shown_iff_not_no_answer (r : query_result) :
  let view := QueryResults.QueryResults (Some r) in
  view <> None
  /\ (no_answer r = false <-> answer_shown view = [ Text (answer r) ])
  /\ (no_answer r = true
      <-> notice_shown view
          = [ Text (utf16 "ℹ️ Aucune réponse possible pour ce client (pas de passage pertinent dans ses documents).") ])
  /\ (no_answer r = true -> by_class_in "answer-box" view = [])
  /\ (no_answer r = false -> by_class_in "no-answer-message" view = [])
  /\ forall env fetch question apiKey s st,
       fetch (Api.query_request env question apiKey)
       = Resolved (Response st (Resolved r)) ->
       ok (Response st (Resolved r)) = true ->
       let s' := App.handleQuery env fetch question apiKey s in
       App.result s' = Some r
       /\ App.error s' = None
       /\ App.error_view s' = None
       /\ App.results_view s' = view.
Proof.
  intros view.
  assert (answer_shown view
          = if no_answer r then [] else [ Text (answer r) ]) as Hanswer.
  { unfold answer_shown, view, QueryResults.QueryResults.
    destruct (no_answer r), (QueryResults.no_sources (sources r));
      panel_by_class; reflexivity. }
  assert (notice_shown view
          = if no_answer r then
              [ Text (utf16 "ℹ️ Aucune réponse possible pour ce client (pas de passage pertinent dans ses documents).") ]
            else []) as Hnotice.
  { unfold notice_shown, view, QueryResults.QueryResults.
    destruct (no_answer r), (QueryResults.no_sources (sources r));
      panel_by_class; reflexivity. }
  split; [discriminate|].
  split; [rewrite Hanswer; destruct (no_answer r); split; congruence|].
  split; [rewrite Hnotice; destruct (no_answer r); split; congruence|].
  split.
  { intros Hno. unfold view, QueryResults.QueryResults. rewrite Hno.
    destruct (QueryResults.no_sources (sources r));
      panel_by_class; reflexivity. }
  split.
  { intros Hno. unfold view, QueryResults.QueryResults. rewrite Hno.
    destruct (QueryResults.no_sources (sources r));
      panel_by_class; reflexivity. }
  intros env fetch question apiKey s st Hreply Hok s'.
  assert (Api.queryDocuments env fetch question apiKey = Resolved r) as Hq.
  { rewrite queryDocuments_cases, Hreply, Hok. reflexivity. }
  destruct (handleQuery_resolved env fetch question apiKey s r Hq)
    as (Hres & _ & Herr).
  fold s' in Hres, Herr.
  unfold App.error_view, App.results_view. rewrite Hres, Herr.
  repeat apply conj; reflexivity.
Qed.

(** The README's example response, and the same with [no_answer] set. *)
Example answer_shown_example :
  let r b :=
    {| tenant_id := utf16 "tenantA";
       answer := utf16 "sinistres@assureur-a.fr";
       sources := Some [ Source (utf16 "docA1_procedure_sinistre.txt") 2
                           (utf16 "0.89") (utf16 "...déclarer un sinistre...") ];
       no_answer := b |} in
  answer_shown (QueryResults.QueryResults (Some (r false)))
  = [ Text (utf16 "sinistres@assureur-a.fr") ]
  /\ answer_shown (QueryResults.QueryResults (Some (r true))) = []
  /\ notice_shown (QueryResults.QueryResults (Some (r false))) = [].
Proof. repeat apply conj; evaluate. Qed.

(** C6. For a result [r], the panel shows the tenant identifier in its
    badge.  When [sources] holds at least one element, it shows one item
    per element, in order, each with the element's [doc_id], [chunk_id],
    [score] and [excerpt], and no no-sources message; when [sources] is
    empty or missing it shows the no-sources message and no item. *)
Theorem sources_shown_with_provenance (r : query_result) :
  let view := QueryResults.QueryResults (Some r) in
  tenant_shown view
  = [ Text (utf16 "📍 Tenant:"); Text (utf16 " "); Text (tenant_id r) ]
  /\ match sources r with
     | Some (s :: l) =>
         sources_shown view = map source_shown (s :: l)
         /\ by_class_in "no-sources" view = []
     | _ =>
         sources_shown view = []
         /\ no_sources_shown view = [ Text (utf16 "Aucune source trouvée") ]
     end.
Proof.
  intros view. split.
  - unfold tenant_shown, view, QueryResults.QueryResults.
    destruct (no_answer r), (QueryResults.no_sources (sources r));
      panel_by_class; reflexivity.
  - unfold sources_shown, no_sources_shown, view, QueryResults.QueryResults.
    destruct (sources r) as [[|s l]|]; cbn [QueryResults.no_sources length
      Nat.eqb default];
      destruct (no_answer r); panel_by_class;
      cbn [default from_option id]; rewrite ?app_nil_r, ?map_map;
      split; reflexivity.
Qed.

(** The README's example response shows its one source. *)
Example sources_shown_example :
  sources_shown
    (QueryResults.QueryResults
       (Some {| tenant_id := utf16 "tenantA";
                answer := utf16 "sinistres@assureur-a.fr";
                sources := Some [ Source (utf16 "docA1_procedure_sinistre.txt")
                                    2 (utf16 "0.89")
                                    (utf16 "...déclarer un sinistre...") ];
                no_answer := false |}))
  = [ [ Text (utf16 "📄 "); Text (utf16 "docA1_procedure_sinistre.txt");
        Text (utf16 "Chunk "); Number 2;
        Text (utf16 " • Score: "); Text (utf16 "0.89");
        Text (utf16 "...déclarer un sinistre...") ] ].
Proof. evaluate. Qed.

(** ** Tenant isolation *)

Module BackendFacts.

Import Backend.

Lemma snapshots_of_owned (w : world) (t : tenant) :
  partitioned w ->
  all_owned_by t (lexical_index (snapshots_of (store w) t))
  /\ all_owned_by t (semantic_index (snapshots_of (store w) t)).
Proof.
  intros [Hstore _]. unfold snapshots_of.
  destruct (store w !! t) as [snap|] eqn:Ht; cbn.
  - apply (Hstore _ _ Ht).
  - split; constructor.
Qed.

Lemma number_chunks_owned (t : tenant) (doc : jsstring)
    (pieces : list (nat * jsstring)) (i : nat) :
  all_owned_by t (number_chunks t doc i pieces).
Proof.
  revert i. induction pieces as [|[start text] rest IH]; intros i; cbn.
  - constructor.
  - constructor; [reflexivity|apply IH].
Qed.

Lemma embed_all_owned (embed : jsstring -> option vector) (t : tenant)
    (cs r : list chunk) :
  embed_all embed cs = Some r -> all_owned_by t cs -> all_owned_by t r.
Proof.
  revert r. induction cs as [|c cs IH]; intros r; cbn.
  - intros [= <-] _. constructor.
  - destruct (embed (span c)) as [v|]; [|discriminate].
    destruct (embed_all embed cs) as [r'|]; [|discriminate].
    intros [= <-] Hall.
    constructor; [exact (Forall_inv Hall)|].
    apply IH; [reflexivity|exact (Forall_inv_tail Hall)].
Qed.

Lemma prepare_owned (eng : engine) (embed : jsstring -> option vector)
    (t : tenant) (filename content : jsstring) (j : job) :
  prepare eng embed t filename content = inl j ->
  all_owned_by (job_tenant j) (job_chunks j).
Proof.
  unfold prepare. destruct (negb _); [discriminate|].
  destruct (chunk_text eng content) as [pieces|e]; [|discriminate].
  destruct (embed_all embed _) as [cs|] eqn:Hcs; [|discriminate].
  intros [= <-]. cbn.
  eapply embed_all_owned; [exact Hcs|apply number_chunks_owned].
Qed.

Lemma supersede_owned (t : tenant) (doc : jsstring) (new old : list chunk) :
  all_owned_by t new -> all_owned_by t old ->
  all_owned_by t (supersede doc new old).
Proof.
  unfold all_owned_by, supersede. intros Hnew Hold.
  apply Forall_app. split; [|exact Hnew].
  induction Hold as [|c old Hc Hold IH]; cbn; [constructor|].
  destruct (negb _); [constructor; assumption|exact IH].
Qed.

Lemma perform_partitioned (eng : engine) (w : world) (o : operation) :
  partitioned w -> partitioned (perform eng w o).
Proof.
  intros Hw. destruct o as [cred filename content embed|i]; cbn.
  - destruct (resolve eng cred) as [t|e]; [|exact Hw].
    destruct (prepare eng embed t filename content) as [j|e] eqn:Hj;
      [|exact Hw].
    destruct Hw as [Hstore Hjobs]. split; [exact Hstore|]. cbn.
    apply Forall_app. split; [exact Hjobs|].
    constructor; [|constructor]. apply (prepare_owned _ _ _ _ _ _ Hj).
  - destruct (jobs w !! i) as [j|] eqn:Hi; [|exact Hw].
    pose proof (snapshots_of_owned w (job_tenant j) Hw) as [Hlex Hsem].
    destruct Hw as [Hstore Hjobs].
    assert (all_owned_by (job_tenant j) (job_chunks j)) as Hj.
    { rewrite Forall_forall in Hjobs. apply Hjobs.
      eapply list_elem_of_lookup_2. exact Hi. }
    split; cbn.
    + intros t snap. unfold commit.
      destruct (decide (job_tenant j = t)) as [<-|Hne].
      * rewrite lookup_insert_eq. intros [= <-]. cbn.
        split; apply supersede_owned; assumption.
      * rewrite lookup_insert_ne by exact Hne. apply Hstore.
    + rewrite Forall_forall in Hjobs. apply Forall_forall.
      intros j' Hj'. apply Hjobs.
      eapply list_elem_of_delete_inv. exact Hj'.
Qed.

Lemma after_partitioned (eng : engine) (ops : list operation) :
  partitioned (after eng ops).
Proof.
  unfold after.
  assert (partitioned start) as Hstart.
  { split; [|constructor]. intros t snap H.
    unfold start in H. cbn [store] in H.
    rewrite lookup_empty in H. discriminate H. }
  revert Hstart. generalize start.
  induction ops as [|o ops IH]; intros w Hw; cbn; [exact Hw|].
  apply IH. apply perform_partitioned. exact Hw.
Qed.

(** Ranking and truncation select among the given candidates. *)
Lemma insert_ranked_In (x y : scored) (l : list scored) :
  In y (insert_ranked x l) -> y = x \/ In y l.
Proof.
  induction l as [|z l IH]; cbn.
  - intros [<-|[]]. left. reflexivity.
  - destruct (ranks_before x z); cbn.
    + intros [<-|H]; [left; reflexivity|right; exact H].
    + intros [<-|H]; [right; left; reflexivity|].
      destruct (IH H) as [->|H']; [left; reflexivity|right; right; exact H'].
Qed.

Lemma rank_In (y : scored) (l : list scored) : In y (rank l) -> In y l.
Proof.
  unfold rank. induction l as [|x l IH]; cbn; [tauto|].
  intros H. apply insert_ranked_In in H as [->|H]; [left; reflexivity|].
  right. apply IH. exact H.
Qed.

Lemma firstn_In {A} (n : nat) (x : A) (l : list A) :
  In x (firstn n l) -> In x l.
Proof.
  revert l. induction n as [|n IH]; intros [|y l]; cbn; try tauto.
  intros [<-|H]; [left; reflexivity|right; apply IH; exact H].
Qed.

Lemma lexical_query_In (eng : engine) (index : list chunk)
    (question : jsstring) (r : scored) :
  In r (lexical_query eng index question) -> In (fst r) index.
Proof.
  unfold lexical_query. intros H.
  apply firstn_In, rank_In, in_map_iff in H as (c & <- & Hc). exact Hc.
Qed.

Lemma semantic_query_In (eng : engine) (embed : jsstring -> option vector)
    (index : list chunk) (question : jsstring) (rs : list scored)
    (r : scored) :
  semantic_query eng embed index question = inl rs ->
  In r rs -> In (fst r) index.
Proof.
  unfold semantic_query. destruct (embed question) as [q|]; [|discriminate].
  intros [= <-] H. apply firstn_In, rank_In in H.
  apply list_elem_of_In, list_elem_of_omap in H as (c & Hc & Hr).
  apply list_elem_of_In in Hc.
  destruct (dense c); [|discriminate]. injection Hr as <-. exact Hc.
Qed.

Lemma retrieve_In (eng : engine) (embed : jsstring -> option vector)
    (snap : snapshots) (question : jsstring) (r : scored) :
  In r (fst (retrieve eng embed snap question)) ->
  In (fst r) (lexical_index snap) \/ In (fst r) (semantic_index snap).
Proof.
  unfold retrieve.
  set (chosen := match semantic_query _ _ _ _ with
                 | inl _ => _ | inr _ => _ end).
  assert (In r (fst chosen) ->
          In (fst r) (lexical_index snap) \/ In (fst r) (semantic_index snap))
    as Hchosen.
  { subst chosen.
    destruct (semantic_query eng embed (semantic_index snap) question)
      as [rs|e] eqn:Hsem.
    - destruct (existsb _ rs); cbn; intros H.
      + right. eapply semantic_query_In; eassumption.
      + left. eapply lexical_query_In; eassumption.
    - cbn. intros H. left. eapply lexical_query_In; eassumption. }
  destruct (fst chosen) as [|top rest] eqn:Hfst; [intros []|].
  destruct (below (T_min eng) top); [intros []|].
  rewrite Hfst. exact Hchosen.
Qed.

End BackendFacts.

(** C1. Whatever ingestions the tenants have begun and committed, in any
    interleaving, a query under a credential of tenant [A] is answered, in
    the name of [A], and every source of the answer cites a chunk that
    [A] owns and that stands in [A]'s own snapshots; so none of them is
    owned by another tenant [B]. *)
Theorem tenant_isolation
    (eng : Backend.engine) (ops : list Backend.operation)
    (A B : Backend.tenant) (cred : Backend.credential)
    (question : jsstring)
    (embed : jsstring -> option Backend.vector)
    (generate : jsstring -> list Backend.chunk -> Backend.generation) :
  Backend.registry eng !! cred = Some A ->
  A <> B ->
  let w := Backend.after eng ops in
  exists r,
    Backend.query eng (Backend.store w) embed generate (Some cred) question
    = inl r
    /\ Backend.reply_tenant r = A
    /\ forall src, In src (Backend.reply_sources r) ->
         Backend.owner (fst src) = A
         /\ Backend.owner (fst src) <> B
         /\ (In (fst src)
               (Backend.lexical_index
                  (Backend.snapshots_of (Backend.store w) A))
             \/ In (fst src)
                  (Backend.semantic_index
                     (Backend.snapshots_of (Backend.store w) A))).
Proof.
  intros Hcred Hdistinct w.
  unfold Backend.query, Backend.resolve. rewrite Hcred.
  destruct (Backend.retrieve eng embed
              (Backend.snapshots_of (Backend.store w) A) question)
    as [ranked m] eqn:Hret.
  destruct (Backend.synthesize generate question ranked) as [text noAnswer].
  eexists. split; [reflexivity|]. split; [reflexivity|].
  cbn. intros src Hsrc.
  assert (In src (fst (Backend.retrieve eng embed
                         (Backend.snapshots_of (Backend.store w) A)
                         question))) as Hin by (rewrite Hret; exact Hsrc).
  apply BackendFacts.retrieve_In in Hin.
  destruct (BackendFacts.snapshots_of_owned w A
              (BackendFacts.after_partitioned eng ops)) as [Hlex Hsem].
  unfold Backend.all_owned_by in Hlex, Hsem.
  rewrite Forall_forall in Hlex, Hsem.
  assert (Backend.owner (fst src) = A) as Howner
    by (destruct Hin as [Hin|Hin]; [apply Hlex|apply Hsem];
        apply list_elem_of_In; exact Hin).
  split; [exact Howner|]. split; [congruence|exact Hin].
Qed.

Lemma tenant_isolation_witness :
  let w := Backend.after demo_engine demo_operations in
  exists r,
    Backend.query demo_engine (Backend.store w) demo_embed
      (fun _ _ => Backend.Declined) (Some (utf16 "tenantA_key"))
      (utf16 "Sous combien de jours doit-on déclarer ?")
    = inl r
    /\ Backend.reply_tenant r = utf16 "tenantA"
    /\ forall src, In src (Backend.reply_sources r) ->
         Backend.owner (fst src) = utf16 "tenantA"
         /\ Backend.owner (fst src) <> utf16 "tenantB"
         /\ (In (fst src)
               (Backend.lexical_index
                  (Backend.snapshots_of (Backend.store w) (utf16 "tenantA")))
             \/ In (fst src)
                  (Backend.semantic_index
                     (Backend.snapshots_of (Backend.store w)
                        (utf16 "tenantA")))).
Proof.
  apply (tenant_isolation demo_engine demo_operations
           (utf16 "tenantA") (utf16 "tenantB") (utf16 "tenantA_key")).
  - vm_compute. reflexivity.
  - intros H. vm_compute in H. discriminate H.
Defined.

(** In that world both tenants hold a chunk, and each query cites the
    chunk of its own tenant. *)
Example tenant_isolation_example :
  let w := Backend.after demo_engine demo_operations in
  let cited key :=
    match Backend.query demo_engine (Backend.store w) demo_embed
            (fun _ _ => Backend.GenerationFailed) (Some (utf16 key))
            (utf16 "Sous combien de jours doit-on déclarer ?") with
    | inl r => map (fun src => (Backend.owner (fst src),
                                Backend.document (fst src),
                                Backend.seq (fst src)))
                 (Backend.reply_sources r)
    | inr _ => []
    end in
  cited "tenantA_key" = [ (utf16 "tenantA", utf16 "docA1.txt", 0%nat) ]
  /\ cited "tenantB_key" = [ (utf16 "tenantB", utf16 "docB1.txt", 0%nat) ]
  /\ Backend.query demo_engine (Backend.store w) demo_embed
       (fun _ _ => Backend.GenerationFailed) (Some (utf16 "tenantC_key"))
       (utf16 "Sous combien de jours doit-on déclarer ?")
     = inr Backend.AuthenticationError.
Proof. repeat apply conj; evaluate. Qed.

(* ===================================================================== *)
(** * Further properties of the client                                    *)
(* ===================================================================== *)

(** ** Runs of the application *)

Lemma step_sends_submitted
    (env : option jsstring) (c : App.config) (e : App.event) :
  Forall (submitted_query env [ e ]) (snd (App.step env c e)).
Proof.
  destruct e as [form|i reply|reply| |t]; cbn [App.step].
  - destruct (QueryForm.submit_disabled _ form); [constructor|].
    rewrite handleSubmit_spec.
    destruct (all_white_space (QueryForm.question form)) eqn:Hws;
      [constructor|].
    constructor; [|constructor].
    exists form. split; [left; reflexivity|]. split; [reflexivity|exact Hws].
  - destruct (App.queries c !! i) as [[question apiKey]|]; constructor.
  - destruct (App.health_pending c); constructor.
  - constructor.
  - constructor.
Qed.

Lemma submitted_query_mono
    (env : option jsstring) (evs evs' : list App.event) (r : request) :
  (forall e, In e evs -> In e evs') ->
  submitted_query env evs r -> submitted_query env evs' r.
Proof.
  intros Hsub (form & Hin & Hr & Hws). exists form. auto.
Qed.

(** X2. In every run at most one query is in flight, and [loading] is
    true exactly while one is: the form cannot start a second query
    before the first has settled. *)
Theorem one_query_in_flight
    (env : option jsstring) (evs : list App.event) :
  let c := fst (App.run env evs) in
  (length (App.queries c) <= 1)%nat
  /\ (App.loading (App.app c) = true <-> App.queries c <> []).
Proof.
  intros c.
  assert (settled_or_single c) as Hinv.
  { subst c. unfold App.run, App.mount. apply run_from_settled_or_single.
    unfold settled_or_single. cbn. auto. }
  unfold settled_or_single in Hinv.
  destruct (App.queries c) as [|x [|y l]]; cbn.
  - destruct Hinv as [Hload _]. split; [lia|]. rewrite Hload.
    split; [discriminate|congruence].
  - destruct Hinv as [Hload _]. split; [lia|]. rewrite Hload.
    split; [discriminate|reflexivity].
  - contradiction.
Qed.

(** X3. While a query is loading, the application renders neither a
    result panel nor an error banner: what an earlier query left is
    cleared before the new request goes out and stays cleared until it
    settles. *)
Theorem loading_shows_nothing_stale
    (env : option jsstring) (evs : list App.event) :
  App.loading (App.app (fst (App.run env evs))) = true ->
  App.results_view (App.app (fst (App.run env evs))) = None
  /\ App.error_view (App.app (fst (App.run env evs))) = None.
Proof.
  intros Hload.
  assert (settled_or_single (fst (App.run env evs))) as Hinv.
  { unfold App.run, App.mount. apply run_from_settled_or_single.
    unfold settled_or_single. cbn. auto. }
  unfold settled_or_single in Hinv.
  destruct (App.queries (fst (App.run env evs))) as [|x [|y l]].
  - destruct Hinv as [Hfalse _]. congruence.
  - destruct Hinv as (_ & Hres & Herr).
    unfold App.results_view, App.error_view. rewrite Hres, Herr.
    split; reflexivity.
  - contradiction.
Qed.

Lemma loading_shows_nothing_stale_witness :
  let evs :=
    [ App.SubmitForm
        (QueryForm.State (utf16 "Quel est l email ?") (utf16 "tenantA_key"));
      App.QuerySettled 0 (Rejected (Error (utf16 "Failed to fetch")));
      App.SubmitForm
        (QueryForm.State (utf16 "Quel est l email ?") (utf16 "tenantB_key")) ] in
  App.results_view (App.app (fst (App.run None evs))) = None
  /\ App.error_view (App.app (fst (App.run None evs))) = None.
Proof.
  intros evs. apply (loading_shows_nothing_stale None evs). evaluate.
Defined.

(** The error state of a reachable configuration is never the empty
    string. *)
Lemma step_error_truthy
    (env : option jsstring) (c : App.config) (e : App.event) :
  ErrorMessage.falsy (App.error (App.app c))
  = negb (bool_decide (is_Some (App.error (App.app c)))) ->
  let c' := fst (App.step env c e) in
  ErrorMessage.falsy (App.error (App.app c'))
  = negb (bool_decide (is_Some (App.error (App.app c')))).
Proof.
  intros Hc c'. subst c'.
  destruct e as [form|i reply|reply| |t]; cbn [App.step].
  - destruct (QueryForm.submit_disabled _ form); [exact Hc|].
    destruct (QueryForm.handleSubmit form) as [[question apiKey]|];
      [reflexivity|exact Hc].
  - destruct (App.queries c !! i) as [[question apiKey]|]; [|exact Hc].
    cbn. destruct (Api.queryDocuments env _ question apiKey) as [data|err].
    + exact Hc.
    + cbn. destruct (truthy (message err)) eqn:Hm.
      * rewrite Hm. reflexivity.
      * evaluate.
  - destruct (App.health_pending c); [|exact Hc].
    cbn. destruct (Api.checkHealth env _); exact Hc.
  - reflexivity.
  - exact Hc.
Qed.

Lemma run_from_error_truthy
    (env : option jsstring) (evs : list App.event)
    (c : App.config) (sent : list request) :
  ErrorMessage.falsy (App.error (App.app c))
  = negb (bool_decide (is_Some (App.error (App.app c)))) ->
  let c' := fst (App.run_from env c sent evs) in
  ErrorMessage.falsy (App.error (App.app c'))
  = negb (bool_decide (is_Some (App.error (App.app c')))).
Proof.
  revert c sent. induction evs as [|e evs IH]; intros c sent Hc; cbn.
  - exact Hc.
  - pose proof (step_error_truthy env c e Hc) as Hstep.
    destruct (App.step env c e) as [c' out]. apply IH. exact Hstep.
Qed.

(** X4. In every run the error state is either null or a non-empty
    message.  On the search tab the error banner is on screen exactly
    when an error is set, and it then shows that message; an empty banner
    never appears.  On the upload tab no banner is on screen, whatever
    the error state: a query that fails while the upload tab is open
    shows its message only once the search tab is opened again. *)
Theorem banner_on_search_tab_iff_error_set
    (env : option jsstring) (evs : list App.event) :
  let s := App.app (fst (App.run env evs)) in
  match App.activeTab s, App.error s with
  | App.Upload, None => banner_on_screen s = None
  | App.Upload, Some m => truthy m = true /\ banner_on_screen s = None
  | App.Search, None => banner_on_screen s = None
  | App.Search, Some m =>
      truthy m = true
      /\ banner_on_screen s <> None
      /\ List.flat_map leaves (by_class_in "error-text" (banner_on_screen s))
         = [ Text (utf16 "Erreur:"); Text (utf16 " "); Text m ]
  end.
Proof.
  intros s.
  assert (ErrorMessage.falsy (App.error s)
          = negb (bool_decide (is_Some (App.error s)))) as Hinv.
  { subst s. unfold App.run, App.mount. apply run_from_error_truthy.
    reflexivity. }
  unfold banner_on_screen.
  destruct (App.activeTab s); destruct (App.error s) as [m|] eqn:Herr.
  - cbn in Hinv. apply negb_false_iff in Hinv.
    split; [exact Hinv|]. split.
    + unfold App.error_view, ErrorMessage.ErrorMessage. rewrite Herr.
      cbn. rewrite Hinv. discriminate.
    + apply error_shown_message; assumption.
  - unfold App.error_view. rewrite Herr. reflexivity.
  - cbn in Hinv. apply negb_false_iff in Hinv. split; [exact Hinv|reflexivity].
  - reflexivity.
Qed.

(** A query that fails with a 401 while the upload tab is open: the
    error is stored, and no banner is on screen. *)
Example failed_query_behind_upload_tab :
  let evs :=
    [ App.SubmitForm
        (QueryForm.State (utf16 "Quel est l email ?") (utf16 "tenantC_key"));
      App.SelectTab App.Upload;
      App.QuerySettled 0
        (Resolved (Response 401 (Rejected (Error (utf16 "Unexpected token"))))) ] in
  let s := App.app (fst (App.run None evs)) in
  App.error s = Some (utf16 "Clé API invalide ou manquante")
  /\ banner_on_screen s = None.
Proof. split; evaluate. Qed.

(** X5. When no usable response arrives (the [fetch] is rejected, or a
    response with a status in 200-299 has a body that does not parse),
    the query ends with the message of that very error in the error
    state, or with the default message when the error has none; there
    is no result and [loading] is false again. *)
Theorem failed_fetch_surfaces_its_message
    (env : option jsstring)
    (fetch : request -> promise (response query_result))
    (question apiKey : jsstring) (s : App.state) (e : Http.error) :
  fetch (Api.query_request env question apiKey) = Rejected e
  \/ (exists st,
        fetch (Api.query_request env question apiKey)
        = Resolved (Response st (Rejected e))
        /\ ok (Response st (Rejected e : promise query_result)) = true) ->
  let s' := App.handleQuery env fetch question apiKey s in
  App.error s'
  = Some (if truthy (message e) then message e
          else utf16 "Une erreur est survenue")
  /\ App.result s' = None
  /\ App.results_view s' = None
  /\ App.loading s' = false.
Proof.
  intros Hfail s'.
  assert (Api.queryDocuments env fetch question apiKey = Rejected e) as Hq.
  { rewrite queryDocuments_cases.
    destruct Hfail as [->|(st & -> & Hok)]; [reflexivity|].
    rewrite Hok. reflexivity. }
  destruct (handleQuery_rejected env fetch question apiKey s e Hq)
    as (Hres & Hload & Herr).
  fold s' in Hres, Hload, Herr.
  unfold App.results_view. rewrite Hres. repeat apply conj; auto.
Qed.

Lemma failed_fetch_surfaces_its_message_witness :
  let offline (_ : request) : promise (response query_result) :=
    Rejected (Error (utf16 "Failed to fetch")) in
  let s' :=
    App.handleQuery None offline (utf16 "Quel est l email ?")
      (utf16 "tenantA_key") App.initial in
  App.error s' = Some (utf16 "Failed to fetch")
  /\ App.result s' = None
  /\ App.results_view s' = None
  /\ App.loading s' = false.
Proof.
  intros offline s'.
  apply (failed_fetch_surfaces_its_message None offline
           (utf16 "Quel est l email ?") (utf16 "tenantA_key") App.initial
           (Error (utf16 "Failed to fetch"))).
  left. reflexivity.
Defined.

Lemma first_health_reply_app
    (before after : list App.event) (reply : promise (response health)) :
  first_health_reply (before ++ App.HealthSettled reply :: after)
  = match first_health_reply before with
    | Some r => Some r
    | None => Some reply
    end.
Proof.
  induction before as [|e before IH]; [reflexivity|].
  destruct e; cbn; auto.
Qed.

Lemma run_backendStatus (env : option jsstring) (evs : list App.event) :
  App.backendStatus (App.app (fst (App.run env evs)))
  = option_map (health_stored env) (first_health_reply evs).
Proof.
  unfold App.run, App.mount. rewrite run_from_backendStatus. cbn.
  destruct (first_health_reply evs); reflexivity.
Qed.

(** X6. The badge reads [Connexion en cours...] exactly when no health
    reply has arrived yet, or when the reply is a response whose body
    parsed to a status that is neither ["ok"] nor ["error"]; and the
    HTTP status code of the reply is never consulted: two replies with
    the same body and different codes leave the same badge. *)
Theorem badge_connecting_iff
    (env : option jsstring) (evs : list App.event) :
  (status_shown (App.app (fst (App.run env evs)))
   = [ Text (utf16 "Connexion en cours...") ]
   <-> first_health_reply evs = None
       \/ exists st h,
            first_health_reply evs = Some (Resolved (Response st (Resolved h)))
            /\ health_status h <> utf16 "ok"
            /\ health_status h <> utf16 "error")
  /\ forall before after st st' body,
       status_shown
         (App.app (fst (App.run env
            (before ++ App.HealthSettled (Resolved (Response st body))
               :: after))))
       = status_shown
           (App.app (fst (App.run env
              (before ++ App.HealthSettled (Resolved (Response st' body))
                 :: after)))).
Proof.
  split.
  - pose proof (run_backendStatus env evs) as Hst.
    rewrite status_shown_cases. unfold App.status_is. rewrite Hst.
    destruct (first_health_reply evs) as [reply|]; cbn.
    + destruct (units_eqb (health_status (health_stored env reply))
                  (utf16 "ok")) eqn:Hok;
        [|destruct (units_eqb (health_status (health_stored env reply))
                      (utf16 "error")) eqn:Herr].
      * apply units_eqb_eq in Hok. split.
        -- intros H. vm_compute in H. discriminate H.
        -- intros [H|(st & h & [= ->] & Hn & _)]; [discriminate H|].
           contradiction.
      * apply units_eqb_eq in Herr. split.
        -- intros H. vm_compute in H. discriminate H.
        -- intros [H|(st & h & [= ->] & _ & Hn)]; [discriminate H|].
           contradiction.
      * split; [|reflexivity]. intros _. right.
        destruct reply as [[st [h|e]]|e].
        -- exists st, h. split; [reflexivity|].
           change (health_stored env _) with h in Hok, Herr.
           split; intros Heq; rewrite Heq in *;
             rewrite (proj2 (units_eqb_eq _ _) eq_refl) in *; discriminate.
        -- vm_compute in Herr. discriminate Herr.
        -- vm_compute in Herr. discriminate Herr.
    + split; [left; reflexivity|reflexivity].
  - intros before after st st' body.
    rewrite !status_shown_cases. unfold App.status_is.
    rewrite !run_backendStatus, !first_health_reply_app.
    destruct (first_health_reply before); reflexivity.
Qed.

(** ** Runs of the upload component *)

Lemma handleFileChange_keeps
    (files : list Http.file) (s : UploadDocument.state) :
  let s' := UploadDocument.handleFileChange files s in
  UploadDocument.uploading s' = UploadDocument.uploading s
  /\ UploadDocument.apiKey s' = UploadDocument.apiKey s
  /\ (forall f, UploadDocument.file s' = Some f ->
        acceptable f \/ UploadDocument.file s = Some f).
Proof.
  intros s'. subst s'. unfold UploadDocument.handleFileChange.
  destruct (head files) as [f0|]; [|auto].
  destruct (endsWith (name f0) (utf16 ".txt")) eqn:Hext; cbn [negb];
    [destruct (size f0 =? 0) eqn:Hzero;
     [|destruct (5 * 1024 * 1024 <? size f0) eqn:Hbig]|].
  all: repeat apply conj; try reflexivity; cbn; intros f Hf;
    try discriminate Hf.
  injection Hf as <-. left. apply acceptable_dec. auto.
Qed.

Lemma handleDrop_handleFileChange
    (files : list Http.file) (s : UploadDocument.state) :
  UploadDocument.handleDrop files s
  = UploadDocument.handleFileChange (firstn 1 files) s.
Proof. destruct files; reflexivity. Qed.

Lemma handleUpload_settled_keeps
    (reply : promise (response Upload.upload_body))
    (s : UploadDocument.state) :
  let s' := Upload.handleUpload_settled reply s in
  UploadDocument.uploading s' = false
  /\ UploadDocument.apiKey s' = UploadDocument.apiKey s
  /\ (forall f, UploadDocument.file s' = Some f ->
        UploadDocument.file s = Some f).
Proof.
  intros s'. subst s'. unfold Upload.handleUpload_settled.
  destruct (Upload.upload_outcome reply); repeat apply conj;
    try reflexivity; cbn; auto; discriminate.
Qed.

Lemma step_validated_or_single (c : Upload.config) (e : Upload.event) :
  validated_or_single c ->
  validated_or_single (fst (Upload.step c e))
  /\ Forall acceptable_upload (snd (Upload.step c e)).
Proof.
  intros Hinv. pose proof Hinv as [Hfile Hflight].
  assert (validated_or_single (fst (c, @nil request))
          /\ Forall acceptable_upload (snd (c, @nil request))) as Hsame
    by (split; [exact Hinv|constructor]).
  destruct e as [files|files| |key| |i reply]; cbn [Upload.step].
  - destruct (UploadDocument.upload_button_shown (Upload.ui c));
      [exact Hsame|].
    destruct (handleFileChange_keeps files (Upload.ui c)) as (Hu & Hk & Hf).
    split; [|constructor]. split; cbn.
    + intros f H. destruct (Hf f H); auto.
    + rewrite Hu, Hk. exact Hflight.
  - rewrite handleDrop_handleFileChange.
    destruct (handleFileChange_keeps (firstn 1 files) (Upload.ui c))
      as (Hu & Hk & Hf).
    split; [|constructor]. split; cbn.
    + intros f H. destruct (Hf f H); auto.
    + rewrite Hu, Hk. exact Hflight.
  - destruct (UploadDocument.upload_button_shown (Upload.ui c));
      [|exact Hsame].
    split; [|constructor]. split; cbn; [|exact Hflight].
    intros f H. discriminate H.
  - destruct (UploadDocument.uploading (Upload.ui c)) eqn:Hup;
      [exact Hsame|].
    split; [|constructor]. split; cbn; [exact Hfile|].
    destruct (Upload.uploads c) as [|r [|r' l]]; cbn; auto.
    destruct Hflight as [Htrue _]. congruence.
  - unfold UploadDocument.upload_button_shown, UploadDocument.handleUpload.
    destruct (UploadDocument.file (Upload.ui c)) as [f|] eqn:Hf; cbn [andb];
      [|exact Hsame].
    destruct (UploadDocument.uploading (Upload.ui c)) eqn:Hup; cbn [negb];
      [exact Hsame|].
    pose proof (Hfile f eq_refl) as Hacc. split.
    + split; cbn.
      * intros f' H. apply Hfile. rewrite <- Hf. exact H.
      * destruct (Upload.uploads c) as [|r [|r' l]]; cbn.
        -- split; [reflexivity|evaluate].
        -- destruct Hflight as [Htrue _]. congruence.
        -- contradiction.
    + constructor; [|constructor].
      exists f, (UploadDocument.apiKey (Upload.ui c)).
      split; [reflexivity|exact Hacc].
  - destruct (Upload.uploads c) as [|r [|r' l]] eqn:Hups; [| |contradiction].
    + exact Hsame.
    + destruct i as [|i]; [|exact Hsame].
      cbn.
      destruct (handleUpload_settled_keeps reply (Upload.ui c))
        as (Hu & Hk & Hf).
      split; [|constructor]. split; cbn.
      * intros f H. apply Hfile, Hf, H.
      * exact Hu.
Qed.

Lemma run_from_validated_or_single
    (evs : list Upload.event) (c : Upload.config) (sent : list request) :
  validated_or_single c -> Forall acceptable_upload sent ->
  validated_or_single (fst (Upload.run_from c sent evs))
  /\ Forall acceptable_upload (snd (Upload.run_from c sent evs)).
Proof.
  revert c sent. induction evs as [|e evs IH]; intros c sent Hc Hsent; cbn.
  - split; assumption.
  - destruct (step_validated_or_single c e Hc) as [Hc' Hout].
    destruct (Upload.step c e) as [c' out]. apply IH; [exact Hc'|].
    apply Forall_app. split; assumption.
Qed.

Lemma run_validated_or_single (evs : list Upload.event) :
  validated_or_single (fst (Upload.run evs))
  /\ Forall acceptable_upload (snd (Upload.run evs)).
Proof.
  unfold Upload.run. apply run_from_validated_or_single; [|constructor].
  split; [intros f H; discriminate H|reflexivity].
Qed.

(** X7. Whatever files are picked, dropped and removed, whatever tenant
    is selected and whenever the upload button is clicked, every request
    the upload component sends is an upload request for a file whose
    name ends with [.txt] and whose size is positive and at most 5 MiB. *)
Theorem only_validated_files_are_uploaded (evs : list Upload.event) :
  Forall acceptable_upload (snd (Upload.run evs)).
Proof.
  destruct (run_validated_or_single evs) as [_ Hsent]. exact Hsent.
Qed.

(** X8. At most one upload is in flight, [uploading] is true exactly
    while one is, and the tenant cannot be changed under it: the request
    in flight carries the key that is still selected. *)
Theorem one_upload_in_flight (evs : list Upload.event) :
  let c := fst (Upload.run evs) in
  (length (Upload.uploads c) <= 1)%nat
  /\ (UploadDocument.uploading (Upload.ui c) = true <-> Upload.uploads c <> [])
  /\ Forall (fun r => header_values "X-API-KEY" r
                      = [ UploadDocument.apiKey (Upload.ui c) ])
       (Upload.uploads c).
Proof.
  intros c. destruct (run_validated_or_single evs) as [[_ Hflight] _].
  fold c in Hflight.
  destruct (Upload.uploads c) as [|r [|r' l]]; cbn.
  - rewrite Hflight. split; [lia|]. split; [|constructor].
    split; [discriminate|congruence].
  - destruct Hflight as [Hup Hkey]. rewrite Hup. split; [lia|].
    split; [split; [discriminate|reflexivity]|].
    constructor; [exact Hkey|constructor].
  - contradiction.
Qed.

(** ** One upload, from the click to the reply *)

(** The outcome of the [try] block by cases on the reply. *)
Lemma upload_outcome_cases (reply : promise (response Upload.upload_body)) :
  Upload.upload_outcome reply
  = match reply with
    | Rejected e => Rejected e
    | Resolved resp =>
        match json resp with
        | Rejected e => Rejected e
        | Resolved body =>
            if ok resp then Resolved body
            else Rejected (Error (or_else (Upload.detail body)
                                    (utf16 "Erreur lors de l'upload")))
        end
    end.
Proof.
  unfold Upload.upload_outcome, await, throw.
  destruct reply as [resp|e]; [|reflexivity].
  destruct (ok resp), (json resp); reflexivity.
Qed.

Lemma or_else_truthy (a : option jsstring) (b : jsstring) :
  truthy b = true -> truthy (or_else a b) = true.
Proof.
  intros Hb. unfold or_else. destruct a as [s|]; [|exact Hb].
  destruct (truthy s) eqn:Hs; [exact Hs|exact Hb].
Qed.

Lemma handleUpload_settled_failed
    (reply : promise (response Upload.upload_body))
    (s : UploadDocument.state) :
  upload_succeeds reply = false ->
  Upload.handleUpload_settled reply s
  = UploadDocument.setUploading false
      (UploadDocument.setError (Some (upload_failure_message reply)) s)
  /\ truthy (upload_failure_message reply) = true.
Proof.
  unfold Upload.handleUpload_settled, upload_succeeds, upload_failure_message.
  rewrite upload_outcome_cases.
  destruct reply as [[st [body|e]]|e]; cbn [json].
  - rewrite andb_true_r. intros ->. cbn [message or_else].
    assert (truthy (utf16 "Erreur lors de l'upload") = true) as Hdef
      by evaluate.
    pose proof (or_else_truthy (Upload.detail body) _ Hdef) as Ht.
    unfold or_else in Ht |- *. rewrite Ht. split; reflexivity.
  - intros _. split; [reflexivity|].
    destruct (truthy (message e)) eqn:Hm; [exact Hm|evaluate].
  - intros _. split; [reflexivity|].
    destruct (truthy (message e)) eqn:Hm; [exact Hm|evaluate].
Qed.

(** X9. An upload that fails in any way (the [fetch] is rejected, the
    status is outside 200-299, or the body does not parse) ends with
    [uploading] false and a non-empty error message; the selected file,
    the selected tenant and the success notice are left as they were, so
    that clicking the upload button again sends the same request. *)
Theorem failed_upload_can_be_retried
    (reply : promise (response Upload.upload_body))
    (s : UploadDocument.state) :
  upload_succeeds reply = false ->
  let s' := Upload.handleUpload_settled reply s in
  UploadDocument.uploading s' = false
  /\ (exists m, UploadDocument.error s' = Some m /\ truthy m = true)
  /\ UploadDocument.file s' = UploadDocument.file s
  /\ UploadDocument.apiKey s' = UploadDocument.apiKey s
  /\ UploadDocument.success s' = UploadDocument.success s
  /\ snd (UploadDocument.handleUpload s') = snd (UploadDocument.handleUpload s).
Proof.
  intros Hfail s'. subst s'.
  destruct (handleUpload_settled_failed reply s Hfail) as [-> Hm].
  split; [reflexivity|]. split; [eexists; split; [reflexivity|exact Hm]|].
  repeat apply conj; try reflexivity.
  unfold UploadDocument.handleUpload. cbn.
  destruct (UploadDocument.file s); reflexivity.
Qed.

Lemma failed_upload_can_be_retried_witness :
  let reply : promise (response Upload.upload_body) :=
    Resolved (Response 413
                (Resolved (Upload.UploadBody
                             (Some (utf16 "Fichier trop volumineux"))
                             [] 0%Z 0))) in
  let s :=
    fst (UploadDocument.handleUpload
           (UploadDocument.handleFileChange
              [ File (utf16 "contrat.txt") 2048 ] UploadDocument.initial)) in
  let s' := Upload.handleUpload_settled reply s in
  UploadDocument.uploading s' = false
  /\ (exists m, UploadDocument.error s' = Some m /\ truthy m = true)
  /\ UploadDocument.file s' = UploadDocument.file s
  /\ UploadDocument.apiKey s' = UploadDocument.apiKey s
  /\ UploadDocument.success s' = UploadDocument.success s
  /\ snd (UploadDocument.handleUpload s') = snd (UploadDocument.handleUpload s).
Proof.
  intros reply s. apply (failed_upload_can_be_retried reply s). reflexivity.
Defined.

(** X10. The message of a failed upload: for a response with a status
    outside 200-299 whose body parsed, the [detail] of the body when it
    is present and not empty, and [Erreur lors de l'upload] otherwise,
    whatever the status (a 401 is not told apart, unlike in a query);
    for a rejected [fetch] or a body that does not parse, the message of
    that error, and the second default only when that message is
    empty. *)
Theorem upload_error_message_precedence
    (reply : promise (response Upload.upload_body))
    (s : UploadDocument.state) :
  upload_succeeds reply = false ->
  UploadDocument.error (Upload.handleUpload_settled reply s)
  = Some
      match reply with
      | Resolved (Response _ (Resolved body)) =>
          match Upload.detail body with
          | Some d => if truthy d then d else utf16 "Erreur lors de l'upload"
          | None => utf16 "Erreur lors de l'upload"
          end
      | Resolved (Response _ (Rejected e)) | Rejected e =>
          if truthy (message e) then message e
          else utf16 "Une erreur est survenue lors de l'upload"
      end.
Proof.
  intros Hfail.
  destruct (handleUpload_settled_failed reply s Hfail) as [-> _].
  reflexivity.
Qed.

Lemma upload_error_message_precedence_witness :
  let refused d : promise (response Upload.upload_body) :=
    Resolved (Response 401 (Resolved (Upload.UploadBody d [] 0%Z 0))) in
  UploadDocument.error
    (Upload.handleUpload_settled (refused (Some (utf16 "Invalid API key")))
       UploadDocument.initial)
  = Some (utf16 "Invalid API key").
Proof.
  intros refused.
  apply (upload_error_message_precedence
           (refused (Some (utf16 "Invalid API key"))) UploadDocument.initial).
  reflexivity.
Defined.

(** X11. A click on the upload button with a file selected, answered by
    a response with a status in 200-299 whose body parsed, ends with no
    file selected, no error and [uploading] false; the success notice
    holds the chunk count of the body and a message that quotes its
    file name; and since the file is cleared, the upload button is gone
    and a further call of [handleUpload] sends nothing. *)
Theorem successful_upload_clears_file
    (s : UploadDocument.state) (f : Http.file)
    (st : N) (data : Upload.upload_body) :
  UploadDocument.file s = Some f ->
  ok (Response st (Resolved data)) = true ->
  let clicked := fst (UploadDocument.handleUpload s) in
  let s' :=
    Upload.handleUpload_settled (Resolved (Response st (Resolved data)))
      clicked in
  UploadDocument.file s' = None
  /\ UploadDocument.error s' = None
  /\ UploadDocument.uploading s' = false
  /\ (exists info,
        UploadDocument.success s' = Some info
        /\ UploadDocument.success_chunks info = Upload.chunks_count data
        /\ exists before after,
             UploadDocument.success_message info
             = before ++ [ 34 ] ++ Upload.filename data ++ [ 34 ] ++ after)
  /\ UploadDocument.upload_button_shown s' = false
  /\ snd (UploadDocument.handleUpload s') = None.
Proof.
  intros Hfile Hok clicked s'. subst s' clicked.
  unfold Upload.handleUpload_settled. rewrite upload_outcome_cases.
  cbn [json]. rewrite Hok.
  unfold UploadDocument.handleUpload. rewrite Hfile.
  repeat apply conj; try reflexivity.
  eexists. split; [reflexivity|]. split; [reflexivity|].
  cbn. eexists _, _. reflexivity.
Qed.

Lemma successful_upload_clears_file_witness :
  let f := File (utf16 "contrat.txt") 2048 in
  let s := UploadDocument.handleFileChange [ f ] UploadDocument.initial in
  let data := Upload.UploadBody None (utf16 "contrat.txt") 5%Z 2048 in
  let s' :=
    Upload.handleUpload_settled (Resolved (Response 200 (Resolved data)))
      (fst (UploadDocument.handleUpload s)) in
  UploadDocument.file s' = None
  /\ UploadDocument.error s' = None
  /\ UploadDocument.uploading s' = false
  /\ (exists info,
        UploadDocument.success s' = Some info
        /\ UploadDocument.success_chunks info = Upload.chunks_count data
        /\ exists before after,
             UploadDocument.success_message info
             = before ++ [ 34 ] ++ Upload.filename data ++ [ 34 ] ++ after)
  /\ UploadDocument.upload_button_shown s' = false
  /\ snd (UploadDocument.handleUpload s') = None.
Proof.
  intros f s data.
  apply (successful_upload_clears_file s f 200 data); evaluate.
Defined.

(** The sizes shown by [toFixed(2)]: rounded to the nearest hundredth of
    a KiB, a tie going up. *)
Example toFixed2_kib_examples :
  map Upload.toFixed2_kib [ 0; 5; 6; 128; 1536; 5242880 ]
  = map utf16 [ "0.00"; "0.00"; "0.01"; "0.13"; "1.50"; "5120.00" ]%string.
Proof. evaluate. Qed.

(** X12. Changing the tenant keeps the selected file and clears both
    notices, so the next click on the upload button sends that same file
    under the key that was just selected. *)
Theorem tenant_change_redirects_upload
    (s : UploadDocument.state) (f : Http.file) (key : jsstring) :
  UploadDocument.file s = Some f ->
  let s' := Upload.handleTenantChange key s in
  UploadDocument.file s' = Some f
  /\ UploadDocument.error s' = None
  /\ UploadDocument.success s' = None
  /\ exists r,
       snd (UploadDocument.handleUpload s') = Some r
       /\ header_values "X-API-KEY" r = [ key ]
       /\ payload r = FormBody [ (utf16 "file", f) ].
Proof.
  intros Hfile s'. subst s'.
  unfold Upload.handleTenantChange, UploadDocument.handleUpload. cbn.
  rewrite Hfile. repeat apply conj; try reflexivity.
  eexists. split; [reflexivity|]. split; evaluate.
Qed.

Lemma tenant_change_redirects_upload_witness :
  let f := File (utf16 "contrat.txt") 2048 in
  let s := UploadDocument.handleFileChange [ f ] UploadDocument.initial in
  let s' := Upload.handleTenantChange (utf16 "tenantB_key") s in
  UploadDocument.file s' = Some f
  /\ UploadDocument.error s' = None
  /\ UploadDocument.success s' = None
  /\ exists r,
       snd (UploadDocument.handleUpload s') = Some r
       /\ header_values "X-API-KEY" r = [ utf16 "tenantB_key" ]
       /\ payload r = FormBody [ (utf16 "file", f) ].
Proof.
  intros f s.
  apply (tenant_change_redirects_upload s f (utf16 "tenantB_key")). evaluate.
Defined.

(** ** The size of an upload, as shown *)

Transparent utf16.

Lemma utf16_string_of_uint (d : Decimal.uint) :
  utf16 (NilEmpty.string_of_uint d) = digit_units d.
Proof.
  unfold utf16. induction d as [|d IH|d IH|d IH|d IH|d IH|d IH|d IH|d IH|d IH|d IH];
    [reflexivity|..].
  all: cbn [NilEmpty.string_of_uint String.list_ascii_of_string map
            digit_units].
  all: rewrite <- IH; reflexivity.
Qed.

Lemma number_to_string_digits (n : N) :
  number_to_string n
  = match N.to_uint n with
    | Decimal.Nil => [ 48 ]
    | d => digit_units d
    end.
Proof.
  unfold number_to_string, NilZero.string_of_uint.
  destruct (N.to_uint n); try apply utf16_string_of_uint. reflexivity.
Qed.

Opaque utf16.

Lemma decimal_value_digit_units (d : Decimal.uint) (acc : N) :
  decimal_value_from acc (digit_units d)
  = Some match acc with
         | 0 => Pos.of_uint d
         | N.pos p => N.pos (Pos.of_uint_acc d p)
         end.
Proof.
  revert acc.
  induction d as [|d IH|d IH|d IH|d IH|d IH|d IH|d IH|d IH|d IH|d IH];
    intros acc; [destruct acc; reflexivity|..].
  all: cbn [digit_units decimal_value_from].
  all: match goal with
       | |- context [digit_value ?c] =>
           let v := eval vm_compute in (digit_value c) in
           change (digit_value c) with v
       end.
  all: cbv iota beta; rewrite IH; f_equal.
  all: destruct acc as [|p]; cbn [Pos.of_uint Pos.of_uint_acc N.mul N.add];
    try reflexivity.
  all: try (f_equal; lia).
  all: match goal with
       | |- match ?e with _ => _ end = N.pos (Pos.of_uint_acc _ ?q) =>
           replace e with (N.pos q) by lia; reflexivity
       end.
Qed.

Lemma number_to_string_value (n : N) :
  decimal_value_from 0 (number_to_string n) = Some n
  /\ number_to_string n <> [].
Proof.
  rewrite number_to_string_digits.
  pose proof (DecimalN.Unsigned.of_to n) as Hn. unfold N.of_uint in Hn.
  destruct (N.to_uint n) eqn:Hd;
    try (split; [rewrite decimal_value_digit_units; congruence|discriminate]).
  split; [cbn in Hn; subst n; reflexivity|discriminate].
Qed.

Lemma decimal_value_leading_zeros (j : nat) (s : jsstring) :
  decimal_value_from 0 (repeat 48 j ++ s) = decimal_value_from 0 s.
Proof. induction j as [|j IH]; [reflexivity|exact IH]. Qed.

Lemma hundredths_shown_padded (ds : jsstring) (n : N) :
  decimal_value_from 0 ds = Some n ->
  let m := repeat 48 (3 - length ds)%nat ++ ds in
  hundredths_shown
    (firstn (length m - 2)%nat m ++ utf16 "." ++ skipn (length m - 2)%nat m)
  = Some n.
Proof.
  intros Hds m.
  assert (3 <= length m)%nat as Hlen
    by (subst m; rewrite length_app, repeat_length;
        unfold code_unit; lia).
  assert (decimal_value_from 0 m = Some n) as Hm
    by (subst m; rewrite decimal_value_leading_zeros; exact Hds).
  rewrite <- (firstn_skipn (length m - 2)%nat m) in Hm.
  pose proof (length_skipn (length m - 2)%nat m) as Hb.
  pose proof (length_firstn (length m - 2)%nat m) as Ha.
  destruct (skipn (length m - 2)%nat m) as [|c1 [|c2 [|c3 b]]];
    cbn in Hb; try lia.
  destruct (firstn (length m - 2)%nat m) as [|a0 a] eqn:Hfirst;
    [cbn in Ha; lia|].
  replace (utf16 ".") with [ 46 ] by evaluate.
  unfold hundredths_shown, jsstring, code_unit in *.
  rewrite rev_app_distr.
  change (rev ([ 46 ] ++ [ c1; c2 ])) with [ c2; c1; 46 ].
  cbn [app].
  destruct (rev (a0 :: a)) as [|x r] eqn:Hrev.
  - apply (f_equal (@length _)) in Hrev. rewrite length_rev in Hrev.
    discriminate Hrev.
  - cbn [N.eqb Pos.eqb]. rewrite <- Hrev, rev_involutive. exact Hm.
Qed.

(** X16. After a successful upload of a body whose [file_size_bytes] is
    below 2^53, the size in the success notice is a string of digits, a
    point and two digits, and read back in hundredths it is the integer
    closest to 100 * bytes / 1024, the larger one in a tie: the size
    shown is within half a hundredth of the size in KiB. *)
Theorem upload_size_reads_back
    (s : UploadDocument.state) (st : N) (data : Upload.upload_body) :
  ok (Response st (Resolved data)) = true ->
  Upload.file_size_bytes data < 2 ^ 53 ->
  let h := (100 * Upload.file_size_bytes data + 512) / 1024 in
  (exists info,
     UploadDocument.success
       (Upload.handleUpload_settled (Resolved (Response st (Resolved data))) s)
     = Some info
     /\ hundredths_shown (UploadDocument.success_size info) = Some h)
  /\ 1024 * h <= 100 * Upload.file_size_bytes data + 512
  /\ 100 * Upload.file_size_bytes data < 1024 * h + 512.
Proof.
  intros Hok _ h. split.
  - unfold Upload.handleUpload_settled. rewrite upload_outcome_cases.
    cbn [json]. rewrite Hok. eexists. split; [reflexivity|].
    cbn [UploadDocument.success_size]. unfold Upload.toFixed2_kib.
    apply hundredths_shown_padded. apply number_to_string_value.
  - subst h.
    pose proof (N.div_mod' (100 * Upload.file_size_bytes data + 512) 1024)
      as Hdiv.
    assert (1024 <> 0) as Hnz by discriminate.
    pose proof (N.mod_lt (100 * Upload.file_size_bytes data + 512) 1024 Hnz)
      as Hmod.
    set (q := (100 * Upload.file_size_bytes data + 512) / 1024) in *.
    set (r := (100 * Upload.file_size_bytes data + 512) mod 1024) in *.
    clearbody q r. clear Hnz. lia.
Qed.

Lemma upload_size_reads_back_witness :
  let data := Upload.UploadBody None (utf16 "contrat.txt") 5%Z 1536 in
  (exists info,
     UploadDocument.success
       (Upload.handleUpload_settled (Resolved (Response 200 (Resolved data)))
          UploadDocument.initial)
     = Some info
     /\ hundredths_shown (UploadDocument.success_size info) = Some 150)
  /\ 1024 * 150 <= 100 * 1536 + 512
  /\ 100 * 1536 < 1024 * 150 + 512.
Proof.
  intros data.
  apply (upload_size_reads_back UploadDocument.initial 200 data);
    reflexivity.
Defined.

(** ** [trim], as the form uses it *)

Lemma trimStart_split (s : jsstring) :
  exists pre, s = pre ++ trimStart s /\ all_white_space pre = true.
Proof.
  induction s as [|c s (pre & Hs & Hpre)]; [exists []; auto|].
  cbn [trimStart]. destruct (is_white_space c) eqn:Hc.
  - exists (c :: pre). split; [cbn; congruence|].
    cbn. rewrite Hc. exact Hpre.
  - exists []. auto.
Qed.

Lemma trimEnd_split (s : jsstring) :
  exists post, s = trimEnd s ++ post /\ all_white_space post = true.
Proof.
  unfold trimEnd. destruct (trimStart_split (rev s)) as (p & Hs & Hp).
  exists (rev p). split; [|rewrite all_white_space_rev; exact Hp].
  rewrite <- rev_app_distr, <- Hs. symmetry. apply rev_involutive.
Qed.

Lemma trimStart_fixed (s : jsstring) :
  (forall c r, s = c :: r -> is_white_space c = false) -> trimStart s = s.
Proof.
  destruct s as [|c r]; [reflexivity|].
  intros H. cbn. rewrite (H c r eq_refl). reflexivity.
Qed.

(** X14. [trim] removes white space at both ends and nothing else: the
    string is its trimmed form between a prefix and a suffix of white
    space; the trimmed form neither starts nor ends with white space;
    and trimming twice is trimming once. *)
Theorem trim_strips_both_ends_only (s : jsstring) :
  (exists pre post,
     s = pre ++ trim s ++ post
     /\ all_white_space pre = true
     /\ all_white_space post = true)
  /\ (forall c r, trim s = c :: r -> is_white_space c = false)
  /\ (forall r c, trim s = r ++ [ c ] -> is_white_space c = false)
  /\ trim (trim s) = trim s.
Proof.
  assert (forall c r, trim s = c :: r -> is_white_space c = false) as Hhead.
  { unfold trim. intros c r H.
    destruct (trimEnd_split (trimStart s)) as (post & Hs & _).
    rewrite H in Hs. apply (trimStart_head s c (r ++ post)). exact Hs. }
  assert (forall r c, trim s = r ++ [ c ] -> is_white_space c = false)
    as Hlast.
  { unfold trim, trimEnd. intros r c H.
    apply (f_equal (@rev _)) in H.
    rewrite rev_involutive, rev_app_distr in H.
    apply (trimStart_head _ _ _ H). }
  split; [|split; [exact Hhead|split; [exact Hlast|]]].
  - destruct (trimStart_split s) as (pre & Hs & Hpre).
    destruct (trimEnd_split (trimStart s)) as (post & Ht & Hpost).
    exists pre, post. split; [|split; assumption].
    unfold trim. rewrite <- Ht. exact Hs.
  - unfold trim at 1. rewrite (trimStart_fixed _ Hhead).
    unfold trimEnd. rewrite trimStart_fixed; [apply rev_involutive|].
    intros c r H. apply (Hlast (rev r) c).
    apply (f_equal (@rev _)) in H. rewrite rev_involutive in H.
    exact H.
Qed.

(** ** The status quoted by a failed query *)

(** X17. For a response with a status outside 200-299 other than 401,
    the error message of the query is [Erreur serveur: ] followed by the
    decimal digits of the status, which read back as the status, so
    that the message tells the statuses apart. *)
Theorem server_error_quotes_status
    (env : option jsstring)
    (fetch : request -> promise (response query_result))
    (question apiKey : jsstring) (s : App.state)
    (resp : response query_result) :
  fetch (Api.query_request env question apiKey) = Resolved resp ->
  ok resp = false ->
  status resp <> 401 ->
  exists digits,
    App.error (App.handleQuery env fetch question apiKey s)
    = Some (utf16 "Erreur serveur: " ++ digits)
    /\ digits <> []
    /\ decimal_value_from 0 digits = Some (status resp).
Proof.
  intros Hreply Hok Hne.
  assert (Api.queryDocuments env fetch question apiKey
          = Rejected (Error (utf16 "Erreur serveur: "
                               ++ number_to_string (status resp)))) as Hq.
  { rewrite queryDocuments_cases, Hreply, Hok.
    apply N.eqb_neq in Hne. rewrite Hne. reflexivity. }
  destruct (handleQuery_rejected env fetch question apiKey s _ Hq)
    as (_ & _ & Herr).
  cbn [message] in Herr.
  rewrite (truthy_app_l (utf16 "Erreur serveur: ")) in Herr by evaluate.
  destruct (number_to_string_value (status resp)) as [Hvalue Hnonempty].
  exists (number_to_string (status resp)). auto.
Qed.

Lemma server_error_quotes_status_witness :
  let unavailable (_ : request) : promise (response query_result) :=
    Resolved (Response 503 (Rejected (Error []))) in
  exists digits,
    App.error
      (App.handleQuery None unavailable (utf16 "Quel est l email ?")
         (utf16 "tenantA_key") App.initial)
    = Some (utf16 "Erreur serveur: " ++ digits)
    /\ digits <> []
    /\ decimal_value_from 0 digits = Some 503.
Proof.
  intros unavailable.
  apply (server_error_quotes_status None unavailable
           (utf16 "Quel est l email ?") (utf16 "tenantA_key") App.initial
           (Response 503 (Rejected (Error [])))).
  - reflexivity.
  - reflexivity.
  - discriminate.
Defined.

(** ** Runs of the application with its tabs *)

(** Only the tab buttons change the tab that is open. *)
Lemma step_keeps_tab
    (env : option jsstring) (c : App.config) (e : App.event) :
  (forall t, e <> App.SelectTab t) ->
  App.activeTab (App.app (fst (App.step env c e)))
  = App.activeTab (App.app c).
Proof.
  intros He.
  destruct e as [form|i reply|reply| |t]; cbn [App.step].
  - destruct (QueryForm.submit_disabled _ form); [reflexivity|].
    destruct (QueryForm.handleSubmit form) as [[question apiKey]|];
      reflexivity.
  - destruct (App.queries c !! i) as [[question apiKey]|]; [|reflexivity].
    cbn. destruct (Api.queryDocuments env _ question apiKey); reflexivity.
  - destruct (App.health_pending c); [|reflexivity].
    cbn. destruct (Api.checkHealth env _); reflexivity.
  - reflexivity.
  - destruct (He t eq_refl).
Qed.

Lemma page_request_mono
    (env : option jsstring) (evs evs' : list Page.event) (r : request) :
  (forall e, In e evs -> In e evs') ->
  page_request env evs r -> page_request env evs' r.
Proof.
  intros Hsub [Hq|Hu]; [left|right; exact Hu].
  eapply submitted_query_mono; [|exact Hq].
  intros e He. unfold Page.app_events in *.
  apply list_elem_of_In, list_elem_of_omap in He.
  destruct He as (pe & Hpe & Hsome).
  apply list_elem_of_In, list_elem_of_omap.
  exists pe. split; [|exact Hsome].
  apply list_elem_of_In, Hsub, list_elem_of_In, Hpe.
Qed.

Lemma page_step_upload_on_its_tab
    (env : option jsstring) (c : Page.config) (e : Page.event) :
  upload_on_its_tab c ->
  upload_on_its_tab (fst (Page.step env c e))
  /\ Forall (page_request env [ e ]) (snd (Page.step env c e)).
Proof.
  intros Hinv.
  assert (upload_on_its_tab (fst (c, @nil request))
          /\ Forall (page_request env [ e ]) (snd (c, @nil request))) as Hsame
    by (split; [exact Hinv|constructor]).
  destruct e as [e|e]; cbn [Page.step].
  - destruct (Page.takes c e) eqn:Htakes; [|exact Hsame].
    pose proof (step_sends_submitted env (Page.app c) e) as Hsent.
    pose proof (step_keeps_tab env (Page.app c) e) as Htab.
    destruct (App.step env (Page.app c) e) as [a out] eqn:Hstep.
    cbn [fst snd] in *. split.
    + unfold upload_on_its_tab in *. cbn [Page.app Page.upload].
      destruct e as [form|i reply|reply| |t];
        try (rewrite Htab by discriminate; exact Hinv).
      cbn [App.step] in Hstep. injection Hstep as <- _.
      destruct t; cbn; [reflexivity|].
      split; [reflexivity|].
      destruct (Page.upload c) as [u|]; cbn.
      * apply Hinv.
      * split; [intros f H; discriminate H|reflexivity].
    + eapply Forall_impl; [exact Hsent|].
      intros r Hr. left. exact Hr.
  - destruct (Page.upload c) as [u|] eqn:Hu; [|exact Hsame].
    assert (validated_or_single u) as Hval.
    { unfold upload_on_its_tab in Hinv. rewrite Hu in Hinv. apply Hinv. }
    destruct (step_validated_or_single u e Hval) as [Hval' Hout].
    destruct (Upload.step u e) as [u' out]. cbn [fst snd] in *. split.
    + unfold upload_on_its_tab in *. rewrite Hu in Hinv.
      cbn [Page.app Page.upload]. split; [apply Hinv|exact Hval'].
    + eapply Forall_impl; [exact Hout|].
      intros r Hr. right. exact Hr.
Qed.

Lemma page_run_from_upload_on_its_tab
    (env : option jsstring) (evs : list Page.event)
    (c : Page.config) (sent : list request) :
  upload_on_its_tab c ->
  upload_on_its_tab (fst (Page.run_from env c sent evs))
  /\ exists rest,
       snd (Page.run_from env c sent evs) = sent ++ rest
       /\ Forall (page_request env evs) rest.
Proof.
  revert c sent. induction evs as [|e evs IH]; intros c sent Hc; cbn.
  - split; [exact Hc|].
    exists []. split; [symmetry; apply app_nil_r|constructor].
  - destruct (page_step_upload_on_its_tab env c e Hc) as [Hc' Hout].
    destruct (Page.step env c e) as [c' out]. cbn [fst snd] in *.
    destruct (IH c' (sent ++ out) Hc') as (Hend & rest & Hrest & Hall).
    split; [exact Hend|].
    exists (out ++ rest). split; [rewrite Hrest; symmetry; apply app_assoc|].
    apply Forall_app. split.
    + eapply Forall_impl; [exact Hout|].
      intros r. apply page_request_mono.
      intros e' [<-|[]]. left. reflexivity.
    + eapply Forall_impl; [exact Hall|].
      intros r. apply page_request_mono.
      intros e' He'. right. exact He'.
Qed.

(** X1. Whatever the user and the network do on either tab, the requests
    of a run of the application are the health request of the mount
    effect followed by query requests and upload requests only.  Each
    query request carries the question and the key of a form that was
    submitted, as typed (the question is not trimmed), and that question
    has a unit that is not white space; each upload request carries a
    file that passes the validation.  The upload component is mounted
    exactly while the upload tab is open. *)
Theorem page_sends_health_then_queries_and_uploads
    (env : option jsstring) (evs : list Page.event) :
  let c := fst (Page.run env evs) in
  (exists rest,
      snd (Page.run env evs) = Api.health_request env :: rest
      /\ Forall (page_request env evs) rest)
  /\ (Page.upload c = None
      <-> App.activeTab (App.app (Page.app c)) = App.Search).
Proof.
  intros c. subst c. unfold Page.run, Page.mount, App.mount.
  destruct (page_run_from_upload_on_its_tab env evs
              {| Page.app :=
                   {| App.app := App.initial; App.queries := [];
                      App.health_pending := true |};
                 Page.upload := None |}
              [ Api.health_request env ]) as (Hend & rest & Hrest & Hall).
  { reflexivity. }
  split.
  - exists rest. split; [exact Hrest|exact Hall].
  - unfold upload_on_its_tab in Hend.
    destruct (Page.upload _) as [u|].
    + destruct Hend as [Htab _]. rewrite Htab. split; discriminate.
    + split; [intros _; exact Hend|reflexivity].
Qed.

(** On the upload tab a picked text file goes out under the key of
    tenant A; back on the search tab the component is gone. *)
Example upload_from_its_tab :
  let f := File (utf16 "contrat.txt") 2048 in
  let evs :=
    [ Page.OfApp (App.SelectTab App.Upload);
      Page.OfUpload (Upload.PickFiles [ f ]);
      Page.OfUpload Upload.ClickUpload;
      Page.OfApp (App.SelectTab App.Search);
      Page.OfUpload Upload.ClickUpload ] in
  snd (Page.run None evs)
  = [ Api.health_request None;
      UploadDocument.upload_request f (utf16 "tenantA_key") ]
  /\ Page.upload (fst (Page.run None evs)) = None.
Proof. split; evaluate. Qed.
